(** * web/hooks/use-bets.ts: the bet filter, the merge steps of the
    subscription hooks and the polling delta query.

    The hooks are React hooks; what is verified here is the pure code inside
    them: [betShouldBeFiltered], the state updaters handed to [setNewBets] /
    [setBets] by the three [addBets] closures, the query description built by
    [newRowsOnlyQ] and the final [orderBy] of [useRealtimeBetsPolling].

    Conventions of the embedding.
    - A JavaScript number that is a timestamp in milliseconds is a [Z];
      fractions and NaN are not modelled.
    - An optional property ([x?: T]) is an [option T]; [None] is [undefined].
    - A value whose only use is its truthiness is kept as a [Js.value] until
      the place where JavaScript coerces it. *)

From Stdlib Require Import ZArith List Ascii String Bool Lia.
From Stdlib Require Import Sorted Permutation OrdersEx RelationClasses.
Import ListNotations.
Local Open Scope Z_scope.

(** ** The fragment of JavaScript the file relies on *)

Module Js.

Inductive value : Type :=
  | Undefined
  | Boolean (b : bool)
  | Number (n : Z)
  | Str (s : string).

(** ToBoolean: [undefined], [false], [0] and the empty string are falsy. *)
Definition truthy (v : value) : bool :=
  match v with
  | Undefined => false
  | Boolean b => b
  | Number n => negb (n =? 0)
  | Str s => negb (s =? EmptyString)%string
  end.

(** [a && b] and [a || b] return one of their operands. *)
Definition and (a b : value) : value := if truthy a then b else a.
Definition or (a b : value) : value := if truthy a then a else b.

(** [!v] *)
Definition not (v : value) : bool := negb (truthy v).

(** An optional property read as a value. *)
Definition of_bool (o : option bool) : value :=
  match o with Some b => Boolean b | None => Undefined end.
Definition of_num (o : option Z) : value :=
  match o with Some n => Number n | None => Undefined end.
Definition of_str (o : option string) : value :=
  match o with Some s => Str s | None => Undefined end.

(** [x != y] for a string [x] and a possibly undefined string [y]:
    a string is never loosely equal to [undefined]. *)
Definition str_neq (x : string) (y : option string) : bool :=
  match y with
  | Some s => negb (x =? s)%string
  | None => true
  end.

(** [x <= y] and [x >= y] for a number [x] and a possibly undefined number
    [y]: [undefined] converts to NaN and every comparison with it fails. *)
Definition num_le (x : Z) (y : option Z) : bool :=
  match y with Some n => x <=? n | None => false end.
Definition num_ge (x : Z) (y : option Z) : bool :=
  match y with Some n => x >=? n | None => false end.

(** [x > y] for a possibly undefined number [x] and a number [y]. *)
Definition num_gt (x : option Z) (y : Z) : bool :=
  match x with Some n => n >? y | None => false end.

(** [a > b] on strings: comparison of the code units, left to right. *)
Definition str_gt (a b : string) : bool :=
  match String_as_OT.compare a b with Gt => true | _ => false end.

(** [a ?? b] *)
Definition nullish {A : Type} (a : option A) (b : A) : A :=
  match a with Some x => x | None => b end.

(** An object used as a map from strings, as the list of its properties in
    the order they were created. *)
Definition object (V : Type) : Type := list (string * V).

(** [o[k] = v]: the property is overwritten where it stands, or created
    after the others. *)
Fixpoint set_property {V : Type} (k : string) (v : V) (o : object V)
  : object V :=
  match o with
  | [] => [(k, v)]
  | (k', v') :: o' =>
    if (k' =? k)%string then (k', v) :: o'
    else (k', v') :: set_property k v o'
  end.

(** [o[k]], [None] for [undefined]. *)
Definition get_property {V : Type} (k : string) (o : object V) : option V :=
  option_map snd (find (fun e => (fst e =? k)%string) o).

(** [Object.fromEntries(entries)]: the entries are written one after the
    other into a new object. *)
Definition fromEntries {V : Type} (entries : list (string * V)) : object V :=
  fold_left (fun o e => set_property (fst e) (snd e) o) entries [].

End Js.

Declare Scope js_scope.
Delimit Scope js_scope with js.
Infix "&&" := Js.and (at level 40, left associativity) : js_scope.
Infix "||" := Js.or (at level 50, left associativity) : js_scope.

(** ** Data model (common/bet) *)

Module Bet.

(** Modelled from the spec: the [Bet] type is declared in common/bet, which
    is not part of this file.  It has an identity, a contract identity, a
    user identity, a creation timestamp and the classification flags; a
    [LimitBet] adds an optional expiration timestamp.  The flags may be
    missing on a record (the scenarios of the spec build bets from [id]
    and [createdTime] alone), so each is optional. *)
Record t : Type := make {
    id : string;
    contractId : string;
    userId : string;
    createdTime : Z;
    isChallenge : option bool;
    isAnte : option bool;
    isRedemption : option bool;
    isFilled : option bool;
    isCancelled : option bool;
    expiresAt : option Z
  }.

End Bet.

(** A [LimitBet] is a [Bet] whose limit-order properties are in use. *)
Definition LimitBet : Type := Bet.t.

Inductive Order : Type := asc | desc.

Module BetFilter.

(** Modelled from the spec: the [BetFilter] type is declared in common/bet.
    Every option is optional. *)
Record t : Type := make {
    contractId : option string;
    userId : option string;
    afterTime : option Z;
    beforeTime : option Z;
    filterChallenges : option bool;
    filterAntes : option bool;
    filterRedemptions : option bool;
    isOpenLimitOrder : option bool;
    order : option Order;
    limit : option Z
  }.

(** The filter object [{}]. *)
Definition empty : t :=
  make None None None None None None None None None None.

Definition with_contractId (v : option string) (o : t) : t :=
  make v (userId o) (afterTime o) (beforeTime o) (filterChallenges o)
       (filterAntes o) (filterRedemptions o) (isOpenLimitOrder o)
       (order o) (limit o).
Definition with_userId (v : option string) (o : t) : t :=
  make (contractId o) v (afterTime o) (beforeTime o) (filterChallenges o)
       (filterAntes o) (filterRedemptions o) (isOpenLimitOrder o)
       (order o) (limit o).
Definition with_afterTime (v : option Z) (o : t) : t :=
  make (contractId o) (userId o) v (beforeTime o) (filterChallenges o)
       (filterAntes o) (filterRedemptions o) (isOpenLimitOrder o)
       (order o) (limit o).
Definition with_beforeTime (v : option Z) (o : t) : t :=
  make (contractId o) (userId o) (afterTime o) v (filterChallenges o)
       (filterAntes o) (filterRedemptions o) (isOpenLimitOrder o)
       (order o) (limit o).
Definition with_order (v : option Order) (o : t) : t :=
  make (contractId o) (userId o) (afterTime o) (beforeTime o)
       (filterChallenges o) (filterAntes o) (filterRedemptions o)
       (isOpenLimitOrder o) v (limit o).

End BetFilter.

(** ** betShouldBeFiltered *)

Definition betShouldBeFiltered (bet : Bet.t) (options : option BetFilter.t)
  : Js.value :=
  match options with
  | None => Js.Boolean false
  | Some options =>
    let shouldBeFiltered :=
      ((Js.of_str (BetFilter.contractId options) &&
        Js.Boolean (Js.str_neq (Bet.contractId bet) (BetFilter.contractId options))) ||
       (Js.of_str (BetFilter.userId options) &&
        Js.Boolean (Js.str_neq (Bet.userId bet) (BetFilter.userId options))) ||
       (Js.of_num (BetFilter.afterTime options) &&
        Js.Boolean (Js.num_le (Bet.createdTime bet) (BetFilter.afterTime options))) ||
       (Js.of_num (BetFilter.beforeTime options) &&
        Js.Boolean (Js.num_ge (Bet.createdTime bet) (BetFilter.beforeTime options))) ||
       (Js.of_bool (BetFilter.filterChallenges options) &&
        Js.of_bool (Bet.isChallenge bet)) ||
       (Js.of_bool (BetFilter.filterAntes options) &&
        Js.of_bool (Bet.isAnte bet)) ||
       (Js.of_bool (BetFilter.filterRedemptions options) &&
        Js.of_bool (Bet.isRedemption bet)) ||
       (Js.of_bool (BetFilter.isOpenLimitOrder options) &&
        (Js.of_bool (Bet.isFilled bet) || Js.of_bool (Bet.isCancelled bet))))%js
    in shouldBeFiltered
  end.

(** ** The lodash functions the file imports *)

Module Lodash.

Section Uniq.
Context {A : Type} (iteratee : A -> string).

(** [baseUniq]: walk the array, keep an element when its computed value
    has not been seen, and remember the value. *)
Fixpoint baseUniq (seen : list string) (array : list A) : list A :=
  match array with
  | [] => []
  | value :: rest =>
    let computed := iteratee value in
    if existsb (String.eqb computed) seen
    then baseUniq seen rest
    else value :: baseUniq (computed :: seen) rest
  end.

Definition uniqBy (array : list A) : list A := baseUniq [] array.
End Uniq.

(** [uniq(array)]: [baseUniq] without an iteratee. *)
Definition uniq (array : list string) : list string :=
  baseUniq (fun value => value) [] array.

Section Sort.
Context {A : Type} (iteratee : A -> Z).

(** [sortBy] and [orderBy] are stable: elements with equal keys keep
    their relative order.  Insertion from the right gives that order:
    an element is put in front of the first element whose key is not
    before its own. *)
Fixpoint insertAscending (x : A) (l : list A) : list A :=
  match l with
  | [] => [x]
  | y :: l' =>
    if iteratee x <=? iteratee y then x :: y :: l'
    else y :: insertAscending x l'
  end.

Fixpoint insertDescending (x : A) (l : list A) : list A :=
  match l with
  | [] => [x]
  | y :: l' =>
    if iteratee x >=? iteratee y then x :: y :: l'
    else y :: insertDescending x l'
  end.

Fixpoint sortBy (collection : list A) : list A :=
  match collection with
  | [] => []
  | x :: l => insertAscending x (sortBy l)
  end.

Fixpoint sortByDescending (collection : list A) : list A :=
  match collection with
  | [] => []
  | x :: l => insertDescending x (sortByDescending l)
  end.

Definition orderBy (collection : list A) (orders : Order) : list A :=
  match orders with
  | asc => sortBy collection
  | desc => sortByDescending collection
  end.
End Sort.

Section Max.
Context {A : Type} (iteratee : A -> string).

(** [baseExtremum] with the comparator [baseGt]: the first element is
    taken, a later one replaces it only when its value is greater. *)
Fixpoint baseExtremum (result : option A) (array : list A) : option A :=
  match array with
  | [] => result
  | value :: rest =>
    match result with
    | None => baseExtremum (Some value) rest
    | Some r =>
      if Js.str_gt (iteratee value) (iteratee r)
      then baseExtremum (Some value) rest
      else baseExtremum result rest
    end
  end.

(** [maxBy(array, iteratee)]: [undefined] for a missing or empty array. *)
Definition maxBy (array : option (list A)) : option A :=
  match array with
  | Some ((_ :: _) as l) => baseExtremum None l
  | _ => None
  end.
End Max.

End Lodash.

(** ** useRealtimeBetsPolling *)

Module useRealtimeBetsPolling.

(** A query under construction on the store: the table, the ordering asked
    for, the strict lower bound on [created_time] given to [.gt] and the
    filter handed to [applyBetsFilter]. *)
Record Query : Type := mkQuery {
  from : string;
  ascending : option bool;
  gt_created_time : option string;
  filter : BetFilter.t
}.

Section Hook.
(** [Row<'contract_bets'>] and [convertBet] come from common/supabase;
    [created_time] is the text of a timestamp.  [toISOString] stands for
    [new Date(ms).toISOString()]. *)
Context {Row : Type}.
Variable created_time : Row -> string.
Variable convertBet : Row -> Bet.t.
Variable toISOString : Z -> string.
Variable options : BetFilter.t.

Definition order_is_asc : bool :=
  match BetFilter.order options with Some asc => true | _ => false end.

Definition allRowsQ : Query :=
  mkQuery "contract_bets" (Some order_is_asc) None options.

Definition newRowsOnlyQ (rows : option (list Row)) : Query :=
  let afterTime := BetFilter.afterTime options in
  let rest := BetFilter.with_afterTime None options in
  let latestCreatedTime :=
    option_map created_time (Lodash.maxBy created_time rows) in
  mkQuery "contract_bets" None
    (Some (Js.nullish latestCreatedTime
             (toISOString (Js.nullish afterTime 0))))
    rest.

(** What the hook returns for the rows [results] of the polling. *)
Definition returned (results : option (list Row)) : option (list Bet.t) :=
  match results with
  | Some rows =>
    Some (Lodash.orderBy Bet.createdTime (map convertBet rows) desc)
  | None => None
  end.

(** [usePersistentSupabasePolling] is an external hook: it is given the
    two queries and hands back the rows it holds, if any. *)
Variable usePersistentSupabasePolling :
  Query -> (option (list Row) -> Query) -> option (list Row).

Definition hook : option (list Bet.t) :=
  let results := usePersistentSupabasePolling allRowsQ newRowsOnlyQ in
  returned results.
End Hook.

End useRealtimeBetsPolling.

(** ** useSubscribeNewBets *)

Module useSubscribeNewBets.
Section Hook.
Variable afterTime : Z.
Variable includeRedemptions : bool.

(** The condition of the final [filter]. *)
Definition keep (b : Bet.t) : bool :=
  (Bet.createdTime b >? afterTime) &&
  (includeRedemptions || Js.not (Js.of_bool (Bet.isRedemption b))).

(** The updater [addBets] gives to [setNewBets]: from the batch and the
    current state to the next state. *)
Definition addBets (bets : list Bet.t) (currentBets : list Bet.t)
  : list Bet.t :=
  let uniqueBets :=
    Lodash.sortBy Bet.createdTime
      (Lodash.uniqBy Bet.id (currentBets ++ bets)) in
  List.filter keep uniqueBets.

Variable contractId : string.

(** The key of the state cell, the filter of the first fetch and the topics
    of the subscription. *)
Definition key : string := (contractId ++ "-new-bets")%string.

Definition getBetsFilter : BetFilter.t :=
  BetFilter.make (Some contractId) None (Some afterTime) None
                 None None (Some (negb includeRedemptions)) None None None.

Definition topics : list string :=
  [("contract/" ++ contractId ++ "/new-bet")%string].
End Hook.
End useSubscribeNewBets.

(** ** useSubscribeGlobalBets *)

Module useSubscribeGlobalBets.
Section Hook.
Variable afterTime : Z.
Variable includeRedemptions : bool.

Definition keep (b : Bet.t) : bool :=
  (Bet.createdTime b >? afterTime) &&
  (includeRedemptions || Js.not (Js.of_bool (Bet.isRedemption b))).

Definition addBets (bets : list Bet.t) (currentBets : list Bet.t)
  : list Bet.t :=
  let uniqueBets :=
    Lodash.sortBy Bet.createdTime
      (Lodash.uniqBy Bet.id (currentBets ++ bets)) in
  List.filter keep uniqueBets.

Definition key : string := "global-new-bets".

Definition getBetsFilter : BetFilter.t :=
  BetFilter.make None None (Some afterTime) None
                 None None (Some (negb includeRedemptions)) None None None.

Definition topics : list string := ["global/new-bet"%string].
End Hook.
End useSubscribeGlobalBets.

(** ** useUnfilledBets *)

Module useUnfilledBets.
Section Hook.
(** The value [Date.now()] has while the updater runs. *)
Variable now : Z.

(** The condition of the final [filter]. *)
Definition keep (bet : LimitBet) : bool :=
  Js.not (Js.of_bool (Bet.isFilled bet)) &&
  Js.not (Js.of_bool (Bet.isCancelled bet)) &&
  (Js.not (Js.of_num (Bet.expiresAt bet)) ||
   Js.num_gt (Bet.expiresAt bet) now).

(** The updater [addBets] gives to [setBets]; the state is [undefined]
    until the first merge. *)
Definition addBets (newBets : list LimitBet)
           (bets : option (list LimitBet)) : list LimitBet :=
  List.filter keep
    (Lodash.sortBy Bet.createdTime
       (Lodash.uniqBy Bet.id (newBets ++ Js.nullish bets []))).

Variable contractId : string.

Definition key : string := ("unfilled-bets-" ++ contractId)%string.

Definition getBetsFilter : BetFilter.t :=
  BetFilter.make (Some contractId) None None None
                 None None None (Some true) None None.

Definition topics : list string :=
  [("contract/" ++ contractId ++ "/orders")%string].
End Hook.
End useUnfilledBets.

(** ** useUnfilledBetsAndBalanceByUserId *)

Module useUnfilledBetsAndBalanceByUserId.
Section Hook.
(** A balance is a number; nothing is computed with it here. *)
Context {Balance : Type}.
(** What [useUnfilledBets(contractId)] returns, and the external hook
    [usePollUserBalances], whose entries [{id, balance}] are pairs. *)
Variable unfilled : option (list LimitBet).
Variable usePollUserBalances :
  list string -> option (list (string * Balance)).

Definition unfilledBets : list LimitBet := Js.nullish unfilled [].

Definition userIds : list string :=
  Lodash.uniq (map Bet.userId unfilledBets).

Definition balances : list (string * Balance) :=
  Js.nullish (usePollUserBalances userIds) [].

Definition balanceByUserId : Js.object Balance :=
  Js.fromEntries (map (fun e => (fst e, snd e)) balances).
End Hook.
End useUnfilledBetsAndBalanceByUserId.

(** ** useRecentBets *)

Module useRecentBets.
Section Hook.
Variable contractId : string.
Variable limit : Z.

Definition getBetsFilter : BetFilter.t :=
  BetFilter.make (Some contractId) None None None
                 None None None None (Some desc) (Some limit).

(** The state set when the fetch resolves with [bets]. *)
Definition fetched (bets : list Bet.t) : option (list Bet.t) :=
  Some (rev bets).
End Hook.
End useRecentBets.

(** A sequence of merges: the state after the batches of [batches] have
    been handed to an updater one after the other. *)
Definition merges {S B : Type} (step : B -> S -> S)
           (batches : list B) (start : S) : S :=
  fold_left (fun s b => step b s) batches start.

(** ** Vocabulary of the properties *)

(** A value built from booleans and [undefined] is [true] as soon as it is
    truthy. *)
Definition boolish (v : Js.value) : Prop :=
  Js.truthy v = true -> v = Js.Boolean true.

(** Order of two elements by a numeric key. *)
Definition le_by {A : Type} (key : A -> Z) (a b : A) : Prop := key a <= key b.

(** Ascending and descending by creation time. *)
Definition le_created : Bet.t -> Bet.t -> Prop := le_by Bet.createdTime.
Definition ge_created (a b : Bet.t) : Prop :=
  Bet.createdTime a >= Bet.createdTime b.
Definition ascending (l : list Bet.t) : Prop := StronglySorted le_created l.
Definition descending (l : list Bet.t) : Prop := StronglySorted ge_created l.

(** The identities of a collection. *)
Definition ids (l : list Bet.t) : list string := map Bet.id l.

(** What the three updaters have in common: deduplicate the concatenation
    by identity, sort it by creation time, filter it.  Each [addBets] is
    proved below to be an instance, for its own concatenation and its own
    condition. *)
Definition reconcile (keep : Bet.t -> bool) (l : list Bet.t) : list Bet.t :=
  filter keep (Lodash.sortBy Bet.createdTime (Lodash.uniqBy Bet.id l)).

(** The first record of a collection that carries identity [i]. *)
Definition first_with_id (i : string) (l : list Bet.t) : option Bet.t :=
  find (fun b => (Bet.id b =? i)%string) l.

(** A flag that is present and true. *)
Definition flag (o : option bool) : bool :=
  match o with Some true => true | _ => false end.

Section Conditions.
(** When a string or a number given for an option makes the option count
    as set. *)
Variable set_str : string -> bool.
Variable set_num : Z -> bool.

(** The eight exclusion conditions of the filter, in the order of the
    list, for a notion of "set". *)
Definition exclusion_conditions (b : Bet.t) (f : BetFilter.t) : list bool :=
  [ match BetFilter.contractId f with
    | Some c => set_str c && negb (Bet.contractId b =? c)%string
    | None => false
    end;
    match BetFilter.userId f with
    | Some u => set_str u && negb (Bet.userId b =? u)%string
    | None => false
    end;
    match BetFilter.afterTime f with
    | Some a => set_num a && (Bet.createdTime b <=? a)
    | None => false
    end;
    match BetFilter.beforeTime f with
    | Some a => set_num a && (Bet.createdTime b >=? a)
    | None => false
    end;
    flag (BetFilter.filterChallenges f) && flag (Bet.isChallenge b);
    flag (BetFilter.filterAntes f) && flag (Bet.isAnte b);
    flag (BetFilter.filterRedemptions f) && flag (Bet.isRedemption b);
    flag (BetFilter.isOpenLimitOrder f) &&
    (flag (Bet.isFilled b) || flag (Bet.isCancelled b)) ].

Definition some_exclusion_holds (b : Bet.t) (f : BetFilter.t) : bool :=
  existsb (fun c => c) (exclusion_conditions b f).
End Conditions.

(** An option is set as soon as a value is given for it. *)
Definition exclusion_when_present : Bet.t -> BetFilter.t -> bool :=
  some_exclusion_holds (fun _ => true) (fun _ => true).

(** An option is set when the value given for it is truthy. *)
Definition exclusion_when_truthy : Bet.t -> BetFilter.t -> bool :=
  some_exclusion_holds (fun s => negb (s =? EmptyString)%string)
                       (fun n => negb (n =? 0)).

(** [matches]: the bet is not filtered. *)
Definition matches (b : Bet.t) (f : option BetFilter.t) : bool :=
  negb (Js.truthy (betShouldBeFiltered b f)).

(** Liveness of a limit order at time [t] as the data model words it: not
    filled, not cancelled, and no expiration or an expiration after [t]. *)
Definition open_at (t : Z) (b : LimitBet) : bool :=
  negb (flag (Bet.isFilled b)) && negb (flag (Bet.isCancelled b)) &&
  match Bet.expiresAt b with
  | None => true
  | Some e => e >? t
  end.

(** The same with an expiration of [0] counted as no expiration. *)
Definition open_at_nonzero (t : Z) (b : LimitBet) : bool :=
  negb (flag (Bet.isFilled b)) && negb (flag (Bet.isCancelled b)) &&
  match Bet.expiresAt b with
  | None => true
  | Some e => (e =? 0) || (e >? t)
  end.

(** A bet that has nothing but an identity, a contract and a creation
    time. *)
Definition plain_bet (i c : string) (t : Z) : Bet.t :=
  Bet.make i c EmptyString t None None None None None None.

(** The bets and the scope of the contract scenario. *)
Definition bet50 : Bet.t := plain_bet "b50" "M1" 50.
Definition bet150 : Bet.t := plain_bet "b150" "M1" 150.
Definition bet200 : Bet.t := plain_bet "b200" "M1" 200.
Definition bet160 : Bet.t := plain_bet "b160" "M2" 160.
Definition scopeM1 : BetFilter.t :=
  BetFilter.with_contractId (Some "M1"%string)
    (BetFilter.with_afterTime (Some 100) BetFilter.empty).

(** Modelled from the spec: [getBets] is declared in common/supabase/bets,
    which is not part of this file.  By sections 4.1 and 6 of the
    specification the fetch returns the bets of the store that the filter
    does not exclude, a bet being excluded when an option is set and the bet
    fails it.  [order] and [limit], which the hooks that merge do not pass,
    are left out. *)
Definition getBets (db : list Bet.t) (options : BetFilter.t) : list Bet.t :=
  List.filter (fun b => negb (exclusion_when_present b options)) db.

(** What can reach a hook: the answer to its fetch, on the store as it is
    then, and a message broadcast on a topic with a batch of bets. *)
Inductive Arrival : Type :=
| Fetch (db : list Bet.t)
| Message (topic : string) (bets : list Bet.t).

(** The bets an arrival carries. *)
Definition arriving (a : Arrival) : list Bet.t :=
  match a with
  | Fetch db => db
  | Message _ bets => bets
  end.

(** Modelled from the spec: [useApiSubscription] is declared in
    ./use-api-subscription, which is not part of this file.  By sections 4.4
    and 6 of the specification [onBroadcast] is called with the messages of
    the topics subscribed to, and with no other. *)
Definition subscribed (topics : list string) (topic : string) : bool :=
  existsb (String.eqb topic) topics.

(** The bets [useSubscribeNewBets] hands to [addBets] on an arrival: what
    [getBets] returns for the filter of the hook, the bets of a message on
    the topic of the hook, nothing for a message on another topic. *)
Definition useSubscribeNewBets_handed
           (contractId : string) (afterTime : Z) (includeRedemptions : bool)
           (a : Arrival) : list Bet.t :=
  match a with
  | Fetch db =>
    getBets db (useSubscribeNewBets.getBetsFilter afterTime
                  includeRedemptions contractId)
  | Message topic bets =>
    if subscribed (useSubscribeNewBets.topics contractId) topic
    then bets else []
  end.

(** The state of [useSubscribeNewBets] after an arrival: the effect calls
    [addBets] with the fetched bets, the subscription calls it with the bets
    of a message on its topic, and another message leaves the state as it
    is. *)
Definition useSubscribeNewBets_receive
           (contractId : string) (afterTime : Z) (includeRedemptions : bool)
           (a : Arrival) (newBets : list Bet.t) : list Bet.t :=
  match a with
  | Fetch db =>
    useSubscribeNewBets.addBets afterTime includeRedemptions
      (getBets db (useSubscribeNewBets.getBetsFilter afterTime
                     includeRedemptions contractId))
      newBets
  | Message topic bets =>
    if subscribed (useSubscribeNewBets.topics contractId) topic
    then useSubscribeNewBets.addBets afterTime includeRedemptions bets newBets
    else newBets
  end.

(** The state the scenario reaches once [bet150] and [bet200] have or have
    not been seen. *)
Definition seen150_200 (l : list Bet.t) : list Bet.t :=
  (if existsb (String.eqb "b150") (ids l) then [bet150] else []) ++
  (if existsb (String.eqb "b200") (ids l) then [bet200] else []).

(** The limit order of the fill scenario, before and after it is filled. *)
Definition bet_a : LimitBet := plain_bet "a" EmptyString 10.
Definition bet_a_filled : LimitBet :=
  Bet.make "a" EmptyString EmptyString 10 None None None (Some true) None None.

(** A limit order whose expiration is the timestamp [0]. *)
Definition bet_expires_0 : LimitBet :=
  Bet.make "e" EmptyString EmptyString 1 None None None None None (Some 0).

(** A bet created at time [5] and the filter [{beforeTime: 0}]. *)
Definition bet_at_5 : Bet.t := plain_bet "x" "M1" 5.
Definition filter_before_0 : BetFilter.t :=
  BetFilter.with_beforeTime (Some 0) BetFilter.empty.

(** The data model makes every attribute of a bet but its liveness flags
    immutable, so two records of one bet have the same creation time and the
    same redemption flag.  [agree_on_immutables c b]: that holds between the
    records of [c] and those of [b]. *)
Definition agree_on_immutables (c b : list Bet.t) : Prop :=
  forall y x, In y c -> In x b -> Bet.id y = Bet.id x ->
    Bet.createdTime y = Bet.createdTime x /\
    Bet.isRedemption y = Bet.isRedemption x.

(** An instance of the polling hook for the examples: a row is the text of
    its creation time with the bet it converts to, and the polling holds
    the rows of [bet150] and [bet200]. *)
Definition example_toISOString (ms : Z) : string :=
  "1970-01-01T00:00:00.000Z".
Definition example_rows : list (string * Bet.t) :=
  [ ("1970-01-01T00:00:00.150Z"%string, bet150);
    ("1970-01-01T00:00:00.200Z"%string, bet200) ].
Definition example_polling
  (allRowsQ : useRealtimeBetsPolling.Query)
  (newRowsOnlyQ : option (list (string * Bet.t)) -> useRealtimeBetsPolling.Query)
  : option (list (string * Bet.t)) :=
  Some example_rows.
Definition options_asc : BetFilter.t :=
  BetFilter.with_order (Some asc) BetFilter.empty.

(** [a <= b] on strings, as the negation of [a > b]. *)
Definition str_le (a b : string) : Prop := Js.str_gt a b = false.

(** Records with one identity agree on creation time and redemption flag
    throughout a list. *)
Definition records_agree (l : list Bet.t) : Prop := agree_on_immutables l l.

(** What [setBets] does to the state of [useUnfilledBets] when [addBets]
    is called at time [fst e] with the batch [snd e]. *)
Definition useUnfilledBets_setBets (e : Z * list LimitBet)
           (s : option (list LimitBet)) : option (list LimitBet) :=
  Some (useUnfilledBets.addBets (fst e) (snd e) s).

(** * Properties *)

(** ** JavaScript values *)

Lemma truthy_and (a b : Js.value) :
  Js.truthy (a && b)%js = Js.truthy a && Js.truthy b.
Proof.
  unfold Js.and. destruct (Js.truthy a) eqn:E; simpl; auto.
Qed.

Lemma truthy_or (a b : Js.value) :
  Js.truthy (a || b)%js = Js.truthy a || Js.truthy b.
Proof.
  unfold Js.or. destruct (Js.truthy a) eqn:E; simpl; auto.
Qed.

Lemma truthy_of_bool (o : option bool) : Js.truthy (Js.of_bool o) = flag o.
Proof. destruct o as [[|]|]; reflexivity. Qed.

Lemma boolish_Boolean (b : bool) : boolish (Js.Boolean b).
Proof. unfold boolish; simpl; intros ->; reflexivity. Qed.

Lemma boolish_of_bool (o : option bool) : boolish (Js.of_bool o).
Proof. destruct o as [[|]|]; unfold boolish; simpl; congruence. Qed.

Lemma boolish_and (a b : Js.value) : boolish b -> boolish (a && b)%js.
Proof.
  unfold boolish, Js.and. intros Hb.
  destruct (Js.truthy a) eqn:E; auto. congruence.
Qed.

Lemma boolish_or (a b : Js.value) :
  boolish a -> boolish b -> boolish (a || b)%js.
Proof.
  unfold boolish, Js.or. intros Ha Hb.
  destruct (Js.truthy a) eqn:E; auto.
Qed.

Lemma or_falsy_left (d r : Js.value) :
  Js.truthy d = false -> (d || r)%js = r.
Proof. unfold Js.or. now intros ->. Qed.

Lemma or_falsy_middle (x d r : Js.value) :
  Js.truthy d = false -> (x || d || r)%js = (x || r)%js.
Proof.
  unfold Js.or. intros Hd. destruct (Js.truthy x) eqn:E.
  - now rewrite E.
  - now rewrite Hd.
Qed.

(** ** Stable sorting *)

Section SortFacts.
Context {A : Type} (key : A -> Z).

Lemma insertAscending_perm (x : A) (l : list A) :
  Permutation (Lodash.insertAscending key x l) (x :: l).
Proof.
  induction l as [|y l IH]; simpl; auto.
  destruct (key x <=? key y); auto.
  rewrite IH. apply perm_swap.
Qed.

Lemma sortBy_perm (l : list A) : Permutation (Lodash.sortBy key l) l.
Proof.
  induction l as [|x l IH]; simpl; auto.
  rewrite insertAscending_perm. auto.
Qed.

Lemma sortBy_In (l : list A) (x : A) : In x (Lodash.sortBy key l) <-> In x l.
Proof.
  split; apply Permutation_in; [| symmetry]; apply sortBy_perm.
Qed.

Lemma insertAscending_sorted (x : A) (l : list A) :
  StronglySorted (le_by key) l ->
  StronglySorted (le_by key) (Lodash.insertAscending key x l).
Proof.
  induction 1 as [|y l Hs IH Hall]; simpl.
  - repeat constructor.
  - destruct (key x <=? key y) eqn:E.
    + apply Z.leb_le in E. constructor; [constructor; auto|].
      constructor; auto.
      eapply Forall_impl; [|exact Hall]. unfold le_by; intros; lia.
    + apply Z.leb_gt in E. constructor; auto.
      eapply Permutation_Forall; [symmetry; apply insertAscending_perm|].
      constructor; auto. unfold le_by; lia.
Qed.

Lemma sortBy_sorted (l : list A) : StronglySorted (le_by key) (Lodash.sortBy key l).
Proof.
  induction l; simpl; [constructor | apply insertAscending_sorted; auto].
Qed.

Lemma insertAscending_front (x : A) (l : list A) :
  Forall ((le_by key) x) l -> Lodash.insertAscending key x l = x :: l.
Proof.
  destruct 1 as [|y l Hy _]; simpl; auto.
  unfold le_by in Hy. apply Z.leb_le in Hy. now rewrite Hy.
Qed.

(** Sorting a sorted list changes nothing. *)
Lemma sortBy_sorted_id (l : list A) :
  StronglySorted (le_by key) l -> Lodash.sortBy key l = l.
Proof.
  induction 1 as [|x l Hs IH Hall]; simpl; auto.
  rewrite IH. now apply insertAscending_front.
Qed.

Lemma filter_sorted (p : A -> bool) (l : list A) :
  StronglySorted (le_by key) l -> StronglySorted (le_by key) (filter p l).
Proof.
  induction 1 as [|x l Hs IH Hall]; simpl; [constructor|].
  destruct (p x); auto. constructor; auto.
  rewrite Forall_forall in *. intros y Hy.
  apply filter_In in Hy. apply Hall, Hy.
Qed.

Lemma filter_insertAscending (p : A -> bool) (x : A) (l : list A) :
  StronglySorted (le_by key) l ->
  filter p (Lodash.insertAscending key x l) =
  if p x then Lodash.insertAscending key x (filter p l) else filter p l.
Proof.
  induction 1 as [|y l Hs IH Hall]; simpl.
  - destruct (p x); reflexivity.
  - destruct (key x <=? key y) eqn:E; simpl.
    + destruct (p x) eqn:Px; auto.
      destruct (p y) eqn:Py; simpl; [now rewrite E|].
      symmetry. apply insertAscending_front.
      apply Z.leb_le in E. rewrite Forall_forall in *.
      intros z Hz. apply filter_In in Hz. destruct Hz as [Hz _].
      specialize (Hall z Hz). unfold le_by in *. lia.
    + rewrite IH. destruct (p y) eqn:Py, (p x) eqn:Px; simpl; auto.
      now rewrite E.
Qed.

(** The stable sort commutes with [filter]. *)
Lemma filter_sortBy (p : A -> bool) (l : list A) :
  filter p (Lodash.sortBy key l) = Lodash.sortBy key (filter p l).
Proof.
  induction l as [|x l IH]; simpl; auto.
  rewrite filter_insertAscending by apply sortBy_sorted.
  rewrite IH. destruct (p x); reflexivity.
Qed.

Lemma sortBy_app_sortBy (a b : list A) :
  Lodash.sortBy key (a ++ Lodash.sortBy key b) = Lodash.sortBy key (a ++ b).
Proof.
  induction a as [|x a IH]; simpl.
  - apply sortBy_sorted_id, sortBy_sorted.
  - now rewrite IH.
Qed.

Lemma sortBy_map_perm {B : Type} (f : A -> B) (l : list A) :
  Permutation (map f (Lodash.sortBy key l)) (map f l).
Proof. apply Permutation_map, sortBy_perm. Qed.

End SortFacts.

(** ** Deduplication by identity *)

Section UniqFacts.
Context {A : Type} (f : A -> string).

Lemma seen_In (i : string) (s : list string) :
  existsb (String.eqb i) s = true <-> In i s.
Proof.
  rewrite existsb_exists. split.
  - intros [j [Hj E]]. apply String.eqb_eq in E. now subst.
  - intros H. exists i. split; auto. apply String.eqb_refl.
Qed.

Lemma seen_ext (i : string) (s1 s2 : list string) :
  (forall j, In j s1 <-> In j s2) ->
  existsb (String.eqb i) s1 = existsb (String.eqb i) s2.
Proof.
  intros H. apply eq_true_iff_eq. rewrite !seen_In. apply H.
Qed.

Lemma baseUniq_ext (s1 s2 : list string) (l : list A) :
  (forall j, In j s1 <-> In j s2) ->
  Lodash.baseUniq f s1 l = Lodash.baseUniq f s2 l.
Proof.
  revert s1 s2. induction l as [|x l IH]; intros s1 s2 H; simpl; auto.
  rewrite (seen_ext (f x) s1 s2 H).
  destruct (existsb _ s2); [now apply IH|].
  f_equal. apply IH. intros j; simpl. rewrite H. tauto.
Qed.

Lemma baseUniq_In (x : A) (s : list string) (l : list A) :
  In x (Lodash.baseUniq f s l) -> In x l /\ ~ In (f x) s.
Proof.
  revert s. induction l as [|y l IH]; intros s; simpl; [tauto|].
  destruct (existsb (String.eqb (f y)) s) eqn:E.
  - intros H. apply IH in H. tauto.
  - intros [->|H].
    + split; auto. rewrite <- seen_In. congruence.
    + apply IH in H. simpl in H. tauto.
Qed.

Lemma baseUniq_NoDup (s : list string) (l : list A) :
  NoDup (map f (Lodash.baseUniq f s l)).
Proof.
  revert s. induction l as [|x l IH]; intros s; simpl; [constructor|].
  destruct (existsb (String.eqb (f x)) s); auto.
  simpl. constructor; auto.
  rewrite in_map_iff. intros [y [E Hy]].
  apply baseUniq_In in Hy. simpl in Hy. intuition congruence.
Qed.

(** The record kept for an identity is the first one that carries it. *)
Lemma find_baseUniq (i : string) (s : list string) (l : list A) :
  find (fun b => (f b =? i)%string) (Lodash.baseUniq f s l) =
  if existsb (String.eqb i) s then None
  else find (fun b => (f b =? i)%string) l.
Proof.
  revert s. induction l as [|x l IH]; intros s; simpl.
  - now destruct (existsb _ s).
  - destruct (existsb (String.eqb (f x)) s) eqn:Ex.
    + rewrite IH. destruct (existsb (String.eqb i) s) eqn:Ei; auto.
      destruct (String.eqb_spec (f x) i) as [E|]; auto.
      subst. congruence.
    + simpl. destruct (String.eqb_spec (f x) i) as [E|N].
      * subst. now rewrite Ex.
      * rewrite IH. simpl.
        destruct (String.eqb_spec i (f x)); [congruence|]. reflexivity.
Qed.

Lemma baseUniq_app (s : list string) (l1 l2 : list A) :
  Lodash.baseUniq f s (l1 ++ l2) =
  Lodash.baseUniq f s l1 ++ Lodash.baseUniq f (map f l1 ++ s) l2.
Proof.
  revert s. induction l1 as [|x l1 IH]; intros s; simpl; auto.
  destruct (existsb (String.eqb (f x)) s) eqn:Ex.
  - rewrite IH. f_equal. apply baseUniq_ext.
    apply seen_In in Ex. intros j. simpl. rewrite !in_app_iff.
    intuition (subst; auto).
  - simpl. rewrite IH. do 2 f_equal. apply baseUniq_ext.
    intros j. simpl. rewrite !in_app_iff. simpl. tauto.
Qed.

Lemma baseUniq_NoDup_filter (s : list string) (l : list A) :
  NoDup (map f l) ->
  Lodash.baseUniq f s l =
  filter (fun x => negb (existsb (String.eqb (f x)) s)) l.
Proof.
  revert s. induction l as [|x l IH]; intros s Hnd; simpl; auto.
  inversion Hnd as [|? ? Hx Hl]; subst.
  destruct (existsb (String.eqb (f x)) s) eqn:Ex; simpl; [now apply IH|].
  f_equal. rewrite IH by assumption.
  apply filter_ext_in. intros y Hy. simpl.
  destruct (String.eqb_spec (f y) (f x)) as [E|]; auto.
  exfalso. apply Hx. rewrite <- E. now apply in_map.
Qed.

Lemma uniqBy_NoDup_id (l : list A) :
  NoDup (map f l) -> Lodash.uniqBy f l = l.
Proof.
  intros H. unfold Lodash.uniqBy. rewrite baseUniq_NoDup_filter by assumption.
  simpl. induction l; simpl; auto. inversion H; subst. f_equal; auto.
Qed.

Lemma find_app (p : A -> bool) (l1 l2 : list A) :
  find p (l1 ++ l2) =
  match find p l1 with Some x => Some x | None => find p l2 end.
Proof.
  induction l1 as [|x l1 IH]; simpl; auto. now destruct (p x).
Qed.

Lemma find_In_NoDup (x : A) (l : list A) :
  NoDup (map f l) -> In x l ->
  find (fun b => (f b =? f x)%string) l = Some x.
Proof.
  induction l as [|y l IH]; simpl; [tauto|].
  intros Hnd [->|Hx]; [now rewrite String.eqb_refl|].
  inversion Hnd as [|? ? Hy Hl]; subst.
  destruct (String.eqb_spec (f y) (f x)) as [E|]; auto.
  exfalso. apply Hy. rewrite E. now apply in_map.
Qed.

Lemma find_None_not_In (i : string) (l : list A) :
  find (fun b => (f b =? i)%string) l = None <-> ~ In i (map f l).
Proof.
  induction l as [|y l IH]; simpl; [tauto|].
  destruct (String.eqb_spec (f y) i) as [E|N].
  - split; [discriminate | tauto].
  - rewrite IH. tauto.
Qed.

End UniqFacts.

(** ** The merge step *)

Lemma useSubscribeNewBets_addBets_eq a r bets cur :
  useSubscribeNewBets.addBets a r bets cur =
  reconcile (useSubscribeNewBets.keep a r) (cur ++ bets).
Proof. reflexivity. Qed.

Lemma useSubscribeGlobalBets_addBets_eq a r bets cur :
  useSubscribeGlobalBets.addBets a r bets cur =
  reconcile (useSubscribeGlobalBets.keep a r) (cur ++ bets).
Proof. reflexivity. Qed.

Lemma useUnfilledBets_addBets_eq now newBets bets :
  useUnfilledBets.addBets now newBets bets =
  reconcile (useUnfilledBets.keep now) (newBets ++ Js.nullish bets []).
Proof. reflexivity. Qed.

Lemma first_with_id_uniqBy (i : string) (l : list Bet.t) :
  first_with_id i (Lodash.uniqBy Bet.id l) = first_with_id i l.
Proof.
  unfold first_with_id, Lodash.uniqBy. now rewrite find_baseUniq.
Qed.

Section Reconcile.
Variable keep : Bet.t -> bool.

Lemma reconcile_In (x : Bet.t) (l : list Bet.t) :
  In x (reconcile keep l) <->
  keep x = true /\ first_with_id (Bet.id x) l = Some x.
Proof.
  unfold reconcile. rewrite filter_In, sortBy_In.
  rewrite <- (first_with_id_uniqBy (Bet.id x) l). split.
  - intros [Hx Hk]. split; auto.
    apply find_In_NoDup; auto. apply baseUniq_NoDup.
  - intros [Hk Hf]. split; auto. now apply find_some in Hf.
Qed.

Lemma reconcile_keep (l : list Bet.t) :
  Forall (fun x => keep x = true) (reconcile keep l).
Proof.
  apply Forall_forall. intros x Hx. now apply reconcile_In in Hx.
Qed.

Lemma reconcile_NoDup (l : list Bet.t) : NoDup (ids (reconcile keep l)).
Proof.
  unfold reconcile, ids, Lodash.uniqBy.
  rewrite filter_sortBy.
  eapply Permutation_NoDup; [symmetry; apply sortBy_map_perm|].
  generalize (baseUniq_NoDup Bet.id [] l).
  generalize (Lodash.baseUniq Bet.id [] l). intros u.
  induction u as [|x u IH]; simpl; [constructor|].
  intros Hnd. inversion Hnd as [|? ? Hx Hu]; subst.
  destruct (keep x); simpl; auto. constructor; auto.
  rewrite in_map_iff. intros [y [E Hy]]. apply filter_In in Hy.
  apply Hx. rewrite <- E. apply in_map. tauto.
Qed.

Lemma reconcile_ascending (l : list Bet.t) : ascending (reconcile keep l).
Proof.
  unfold reconcile, ascending, le_created.
  apply filter_sorted, sortBy_sorted.
Qed.

Lemma filter_all (p : Bet.t -> bool) (l : list Bet.t) :
  Forall (fun x => p x = true) l -> filter p l = l.
Proof.
  induction 1 as [|x l Hx _ IH]; simpl; auto. now rewrite Hx, IH.
Qed.

Lemma filter_none (p : Bet.t -> bool) (l : list Bet.t) :
  Forall (fun x => p x = false) l -> filter p l = [].
Proof.
  induction 1 as [|x l Hx _ IH]; simpl; auto. now rewrite Hx.
Qed.

Lemma filter_twice (p : Bet.t -> bool) (l : list Bet.t) :
  filter p (filter p l) = filter p l.
Proof.
  apply filter_all, Forall_forall. intros x Hx. now apply filter_In in Hx.
Qed.

(** A collection that merged a batch placed in front of it does not change
    when the same batch is merged again. *)
Lemma reconcile_again_front (b c : list Bet.t) :
  reconcile keep (b ++ reconcile keep (b ++ c)) = reconcile keep (b ++ c).
Proof.
  set (ub := Lodash.baseUniq Bet.id [] b).
  set (uc := Lodash.baseUniq Bet.id (ids b) c).
  set (fresh := fun x => negb (existsb (String.eqb (Bet.id x)) (ids b))).
  assert (Hr : reconcile keep (b ++ c) =
               Lodash.sortBy Bet.createdTime (filter keep ub ++ filter keep uc)).
  { unfold reconcile, Lodash.uniqBy.
    now rewrite filter_sortBy, baseUniq_app, filter_app, app_nil_r. }
  assert (Hfresh : filter fresh (reconcile keep (b ++ c)) =
                   Lodash.sortBy Bet.createdTime (filter keep uc)).
  { rewrite Hr, filter_sortBy, filter_app. f_equal.
    rewrite filter_none, filter_all; auto.
    - apply Forall_forall. intros x Hx. apply filter_In in Hx.
      destruct Hx as [Hx _]. apply baseUniq_In in Hx.
      apply negb_true_iff, not_true_is_false.
      unfold ids. rewrite seen_In. tauto.
    - apply Forall_forall. intros x Hx. apply filter_In in Hx.
      destruct Hx as [Hx _]. apply baseUniq_In in Hx.
      apply negb_false_iff, seen_In. apply in_map. tauto. }
  unfold reconcile at 1. unfold Lodash.uniqBy.
  rewrite baseUniq_app, app_nil_r.
  rewrite (baseUniq_NoDup_filter Bet.id (map Bet.id b))
    by apply reconcile_NoDup.
  fold (ids b). fold fresh. fold ub. rewrite Hfresh.
  rewrite sortBy_app_sortBy, filter_sortBy, filter_app, filter_twice.
  now rewrite Hr.
Qed.

(** A collection that merged a batch placed behind it does not change when
    the same batch is merged again, provided a record of the batch that
    passes the filter does not meet a record of the collection with the same
    identity that fails it. *)
Lemma reconcile_again_back (b c : list Bet.t) :
  (forall y x, In y c -> In x b -> Bet.id y = Bet.id x ->
               keep x = true -> keep y = true) ->
  reconcile keep (reconcile keep (c ++ b) ++ b) = reconcile keep (c ++ b).
Proof.
  intros Hc.
  set (r := reconcile keep (c ++ b)).
  assert (Hnd : NoDup (map Bet.id r)) by apply reconcile_NoDup.
  assert (Hnew : filter keep (Lodash.baseUniq Bet.id (map Bet.id r ++ []) b)
                 = []).
  { apply filter_none, Forall_forall. intros x Hx.
    apply not_true_is_false. intros Hk.
    assert (Hfirst : first_with_id (Bet.id x) b = Some x).
    { unfold first_with_id.
      pose proof (find_baseUniq Bet.id (Bet.id x) (map Bet.id r ++ []) b) as E.
      rewrite (find_In_NoDup Bet.id x _ (baseUniq_NoDup _ _ _) Hx) in E.
      destruct (existsb _ _); congruence. }
    apply baseUniq_In in Hx. destruct Hx as [Hxb Hx]. apply Hx.
    rewrite app_nil_r.
    unfold first_with_id in Hfirst.
    destruct (find (fun b0 => (Bet.id b0 =? Bet.id x)%string) c)
      as [y|] eqn:Ec.
    - pose proof (find_some _ _ Ec) as [Hyc Hid].
      apply String.eqb_eq in Hid.
      rewrite <- Hid. apply (in_map Bet.id r y). apply reconcile_In. split.
      + eauto.
      + unfold first_with_id. rewrite Hid, find_app. now rewrite Ec.
    - apply (in_map Bet.id r x). apply reconcile_In. split; auto.
      unfold first_with_id. now rewrite find_app, Ec. }
  unfold reconcile at 1. unfold Lodash.uniqBy.
  rewrite baseUniq_app, filter_sortBy, filter_app, Hnew, app_nil_r.
  fold (Lodash.uniqBy Bet.id r).
  rewrite uniqBy_NoDup_id by assumption.
  rewrite filter_all by apply reconcile_keep.
  apply sortBy_sorted_id. apply reconcile_ascending.
Qed.

Lemma reconcile_again_back_agree (b c : list Bet.t) :
  (forall y x, In y c -> In x b -> Bet.id y = Bet.id x -> keep y = keep x) ->
  reconcile keep (reconcile keep (c ++ b) ++ b) = reconcile keep (c ++ b).
Proof.
  intros H. apply reconcile_again_back.
  intros y x Hy Hx E Hk. now rewrite (H y x Hy Hx E).
Qed.

Lemma reconcile_again_back_kept (b c : list Bet.t) :
  Forall (fun y => keep y = true) c ->
  reconcile keep (reconcile keep (c ++ b) ++ b) = reconcile keep (c ++ b).
Proof.
  intros H. apply reconcile_again_back.
  intros y x Hy _ _ _. rewrite Forall_forall in H. auto.
Qed.

End Reconcile.

(** ** The filter evaluator *)

Lemma truthy_betShouldBeFiltered (b : Bet.t) (f : BetFilter.t) :
  Js.truthy (betShouldBeFiltered b (Some f)) = exclusion_when_truthy b f.
Proof.
  unfold betShouldBeFiltered, exclusion_when_truthy, some_exclusion_holds,
    exclusion_conditions.
  rewrite !truthy_or, !truthy_and, !truthy_or, !truthy_of_bool.
  destruct f as [c u a e fc fa fr ol o l]; simpl.
  destruct c as [c|], u as [u|], a as [a|], e as [e|]; simpl;
    rewrite ?orb_false_r, ?andb_false_r, ?orb_assoc; reflexivity.
Qed.

Lemma boolish_betShouldBeFiltered (b : Bet.t) (f : option BetFilter.t) :
  boolish (betShouldBeFiltered b f).
Proof.
  destruct f as [f|]; simpl; [|apply boolish_Boolean].
  repeat first [ apply boolish_or | apply boolish_and
               | apply boolish_Boolean | apply boolish_of_bool ].
Qed.

(** C1, as amended.  A bet is filtered exactly when one of the eight
    exclusion conditions holds, an option counting as set when its value is
    truthy: [betShouldBeFiltered] then returns [true], and otherwise a falsy
    value.  Without a filter object it returns [false] for every bet. *)
Theorem betShouldBeFiltered_iff_exclusion_when_truthy
  (b : Bet.t) (f : BetFilter.t) :
  matches b (Some f) = negb (exclusion_when_truthy b f) /\
  (if exclusion_when_truthy b f
   then betShouldBeFiltered b (Some f) = Js.Boolean true
   else Js.truthy (betShouldBeFiltered b (Some f)) = false) /\
  betShouldBeFiltered b None = Js.Boolean false /\
  matches b None = true.
Proof.
  unfold matches. rewrite truthy_betShouldBeFiltered.
  repeat split.
  pose proof (truthy_betShouldBeFiltered b f) as E.
  destruct (exclusion_when_truthy b f); auto.
  now apply boolish_betShouldBeFiltered.
Qed.

(** C1, counterexample.  With the filter [{beforeTime: 0}] and a bet created
    at time 5 the condition "beforeTime set and createdTime >= beforeTime"
    holds when set means given, and the bet is not filtered. *)
Lemma betShouldBeFiltered_not_iff_exclusion_when_present :
  ~ (Js.truthy (betShouldBeFiltered bet_at_5 (Some filter_before_0)) = true
     <-> exclusion_when_present bet_at_5 filter_before_0 = true).
Proof.
  vm_compute. intros [_ H]. specialize (H eq_refl). discriminate.
Qed.

(** C10.  An [afterTime] of 0, a [contractId] or a [userId] that is the
    empty string has the effect of the option being left out, whatever the
    bet and the rest of the filter; with [{afterTime: 0}] alone no bet is
    filtered, whatever its creation time. *)
Theorem betShouldBeFiltered_falsy_option_is_unset
  (b : Bet.t) (f : BetFilter.t) :
  betShouldBeFiltered b (Some (BetFilter.with_afterTime (Some 0) f)) =
  betShouldBeFiltered b (Some (BetFilter.with_afterTime None f)) /\
  betShouldBeFiltered b (Some (BetFilter.with_contractId (Some EmptyString) f)) =
  betShouldBeFiltered b (Some (BetFilter.with_contractId None f)) /\
  betShouldBeFiltered b (Some (BetFilter.with_userId (Some EmptyString) f)) =
  betShouldBeFiltered b (Some (BetFilter.with_userId None f)) /\
  Js.truthy (betShouldBeFiltered b
     (Some (BetFilter.with_afterTime (Some 0) BetFilter.empty))) = false.
Proof.
  destruct f as [c u a e fc fa fr ol o l].
  unfold betShouldBeFiltered.
  cbn [BetFilter.with_afterTime BetFilter.with_contractId
       BetFilter.with_userId BetFilter.contractId BetFilter.userId
       BetFilter.afterTime BetFilter.beforeTime BetFilter.filterChallenges
       BetFilter.filterAntes BetFilter.filterRedemptions
       BetFilter.isOpenLimitOrder].
  split; [|split; [|split]].
  - rewrite (or_falsy_middle _ (Js.and (Js.of_num (Some 0)) _)) by reflexivity.
    now rewrite (or_falsy_middle _ (Js.and (Js.of_num None) _)) by reflexivity.
  - rewrite (or_falsy_left (Js.and (Js.of_str (Some EmptyString)) _))
      by reflexivity.
    now rewrite (or_falsy_left (Js.and (Js.of_str None) _)) by reflexivity.
  - rewrite (or_falsy_middle _ (Js.and (Js.of_str (Some EmptyString)) _))
      by reflexivity.
    now rewrite (or_falsy_middle _ (Js.and (Js.of_str None) _)) by reflexivity.
  - change (Js.truthy (betShouldBeFiltered b
       (Some (BetFilter.with_afterTime (Some 0) BetFilter.empty))) = false).
    rewrite truthy_betShouldBeFiltered. reflexivity.
Qed.

(** ** Which record a merge keeps *)

(** C2, as amended.  [useUnfilledBets.addBets] puts the incoming batch in
    front: an entry of the new collection whose identity occurs in the batch
    is the first record of the batch with that identity.
    [useSubscribeNewBets.addBets] and [useSubscribeGlobalBets.addBets] put
    the current collection in front: an entry whose identity occurs in the
    current collection is the first record of the current collection with
    that identity, and what the batch says about it is dropped. *)
Theorem addBets_entry_is_first_record
  (now afterTime : Z) (includeRedemptions : bool)
  (batch : list Bet.t) (current : list Bet.t) (x : Bet.t) :
  (In x (useUnfilledBets.addBets now batch (Some current)) ->
   In (Bet.id x) (ids batch) ->
   first_with_id (Bet.id x) batch = Some x) /\
  (In x (useSubscribeNewBets.addBets afterTime includeRedemptions
           batch current) ->
   In (Bet.id x) (ids current) ->
   first_with_id (Bet.id x) current = Some x) /\
  (In x (useSubscribeGlobalBets.addBets afterTime includeRedemptions
           batch current) ->
   In (Bet.id x) (ids current) ->
   first_with_id (Bet.id x) current = Some x).
Proof.
  assert (G : forall keep front back,
             In x (reconcile keep (front ++ back)) ->
             In (Bet.id x) (ids front) ->
             first_with_id (Bet.id x) front = Some x).
  { intros keep front back Hin Hid.
    apply reconcile_In in Hin. destruct Hin as [_ Hf].
    unfold first_with_id in *. rewrite find_app in Hf.
    destruct (find _ front) eqn:E; auto.
    apply find_None_not_In in E. contradiction. }
  repeat split; apply G.
Qed.

Lemma addBets_entry_is_first_record_witness :
  first_with_id "a" [bet_a; bet_expires_0] = Some bet_a /\
  first_with_id "a" [bet_a] = Some bet_a.
Proof.
  split.
  - apply (proj1 (addBets_entry_is_first_record 20 0 false
                    [bet_a; bet_expires_0] [bet_a_filled] bet_a));
      vm_compute; auto.
  - apply (proj1 (proj2 (addBets_entry_is_first_record 20 0 false
                           [bet_a_filled] [bet_a] bet_a)));
      vm_compute; auto.
Defined.

(** C2, counterexample.  The current collection of [useSubscribeNewBets]
    holds the order "a"; a batch brings the record of "a" with [isFilled]
    true; the entry of the new collection for "a" is the old record, whose
    flag is not that of the batch. *)
Lemma useSubscribeNewBets_addBets_keeps_stale_record :
  first_with_id "a"
    (useSubscribeNewBets.addBets 0 false [bet_a_filled] [bet_a])
  = Some bet_a /\
  first_with_id "a"
    (useSubscribeGlobalBets.addBets 0 false [bet_a_filled] [bet_a])
  = Some bet_a /\
  Bet.isFilled bet_a <> Bet.isFilled bet_a_filled.
Proof. repeat split. discriminate. Qed.

(** C3.  From the state before any merge (and from the empty collection
    alike), the batch with the open order "a" and then the batch with "a"
    filled leave a collection without "a", whatever the times of the two
    merges; after the first merge "a" is there. *)
Theorem useUnfilledBets_filled_order_leaves (t1 t2 : Z) :
  useUnfilledBets.addBets t1 [bet_a] None = [bet_a] /\
  useUnfilledBets.addBets t1 [bet_a] (Some []) = [bet_a] /\
  useUnfilledBets.addBets t2 [bet_a_filled]
    (Some (useUnfilledBets.addBets t1 [bet_a] None)) = [] /\
  ~ In "a"%string
      (ids (useUnfilledBets.addBets t2 [bet_a_filled]
              (Some (useUnfilledBets.addBets t1 [bet_a] None)))).
Proof.
  split; [reflexivity|]. split; [reflexivity|]. split; [reflexivity|].
  simpl. tauto.
Qed.

(** ** Invariants of the merged collection *)

(** C4.  Whatever the current collection and the batch, the collection a
    merge step returns has pairwise distinct identities; so has every
    collection reached by merges. *)
Theorem addBets_NoDup_ids
  (now afterTime : Z) (includeRedemptions : bool)
  (batch : list Bet.t) (current : list Bet.t) (state : option (list Bet.t))
  (batches : list (list Bet.t)) :
  NoDup (ids (useSubscribeNewBets.addBets afterTime includeRedemptions
                batch current)) /\
  NoDup (ids (useSubscribeGlobalBets.addBets afterTime includeRedemptions
                batch current)) /\
  NoDup (ids (useUnfilledBets.addBets now batch state)) /\
  NoDup (ids (merges (useSubscribeNewBets.addBets afterTime
                        includeRedemptions) batches [])).
Proof.
  repeat split; try apply reconcile_NoDup.
  unfold merges.
  assert (G : forall s, NoDup (ids s) ->
            NoDup (ids (fold_left
              (fun s b => useSubscribeNewBets.addBets afterTime
                            includeRedemptions b s) batches s))).
  { induction batches as [|b bs IH]; intros s Hs; simpl; auto.
    apply IH. apply reconcile_NoDup. }
  apply G. constructor.
Qed.

(** X20.  The collection a merge step returns is ascending by creation
    time, for each of the three hooks and whatever the current collection
    and the batch. *)
Lemma addBets_ascending
  (now afterTime : Z) (includeRedemptions : bool)
  (batch : list Bet.t) (current : list Bet.t) (state : option (list Bet.t)) :
  ascending (useSubscribeNewBets.addBets afterTime includeRedemptions
               batch current) /\
  ascending (useSubscribeGlobalBets.addBets afterTime includeRedemptions
               batch current) /\
  ascending (useUnfilledBets.addBets now batch state).
Proof. repeat split; apply reconcile_ascending. Qed.

(** C5.  Merging a batch a second time changes nothing: for
    [useUnfilledBets], for every state and batch at one evaluation time; for
    [useSubscribeNewBets] and [useSubscribeGlobalBets], for every collection
    and batch of the data model, in which two records with one identity are
    records of one bet and so have the same creation time and redemption
    flag. *)
Theorem addBets_idempotent
  (now afterTime : Z) (includeRedemptions : bool)
  (batch : list Bet.t) (current : list Bet.t) (state : option (list Bet.t)) :
  useUnfilledBets.addBets now batch
    (Some (useUnfilledBets.addBets now batch state)) =
  useUnfilledBets.addBets now batch state /\
  (agree_on_immutables current batch ->
   useSubscribeNewBets.addBets afterTime includeRedemptions batch
     (useSubscribeNewBets.addBets afterTime includeRedemptions batch current) =
   useSubscribeNewBets.addBets afterTime includeRedemptions batch current) /\
  (agree_on_immutables current batch ->
   useSubscribeGlobalBets.addBets afterTime includeRedemptions batch
     (useSubscribeGlobalBets.addBets afterTime includeRedemptions batch
        current) =
   useSubscribeGlobalBets.addBets afterTime includeRedemptions batch current).
Proof.
  split; [apply reconcile_again_front|].
  split; intros Hbets; apply reconcile_again_back_agree; intros y x Hy Hx E;
    destruct (Hbets y x Hy Hx E) as [Ht Hr];
    unfold useSubscribeNewBets.keep, useSubscribeGlobalBets.keep;
    now rewrite Ht, Hr.
Qed.

Lemma addBets_idempotent_witness :
  agree_on_immutables [bet_a] [bet_a_filled; bet_expires_0] /\
  useSubscribeNewBets.addBets 0 false [bet_a_filled; bet_expires_0]
    (useSubscribeNewBets.addBets 0 false [bet_a_filled; bet_expires_0]
       [bet_a]) =
  useSubscribeNewBets.addBets 0 false [bet_a_filled; bet_expires_0] [bet_a].
Proof.
  assert (H : agree_on_immutables [bet_a] [bet_a_filled; bet_expires_0]).
  { intros y x [<-|[]] [<-|[<-|[]]] E; simpl in *;
      try discriminate; split; reflexivity. }
  split; [exact H|].
  exact (proj1 (proj2 (addBets_idempotent 20 0 false
                         [bet_a_filled; bet_expires_0] [bet_a] None)) H).
Defined.

(** A collection a merge returned is not changed by merging the same batch
    again with the same parameters, whatever the records. *)
Lemma useSubscribeNewBets_addBets_stable_after_first
  (afterTime : Z) (includeRedemptions : bool) (batch current : list Bet.t) :
  Forall (fun y => useSubscribeNewBets.keep afterTime includeRedemptions y
                   = true) current ->
  useSubscribeNewBets.addBets afterTime includeRedemptions batch
    (useSubscribeNewBets.addBets afterTime includeRedemptions batch current) =
  useSubscribeNewBets.addBets afterTime includeRedemptions batch current.
Proof. apply reconcile_again_back_kept. Qed.

(** ** Liveness of the open limit orders *)

Lemma useUnfilledBets_keep_open (t : Z) (b : LimitBet) :
  useUnfilledBets.keep t b = open_at_nonzero t b.
Proof.
  unfold useUnfilledBets.keep, open_at_nonzero, Js.not.
  rewrite !truthy_of_bool.
  destruct (Bet.expiresAt b) as [e|]; simpl;
    rewrite ?negb_involutive; reflexivity.
Qed.

(** C8, as amended.  After a merge at time [t], of any batch and the empty
    one too, every limit order of the collection is not filled, not
    cancelled, and has no expiration, an expiration of 0, or an expiration
    after [t]; an order of the state with an expiration other than 0 that is
    not after [t] is gone after the merge of the empty batch. *)
Theorem useUnfilledBets_addBets_open
  (t : Z) (batch : list LimitBet) (state : option (list LimitBet)) :
  Forall (fun b => open_at_nonzero t b = true)
         (useUnfilledBets.addBets t batch state) /\
  Forall (fun b => open_at_nonzero t b = true)
         (useUnfilledBets.addBets t [] state) /\
  Forall (fun b => match Bet.expiresAt b with
                   | Some e => e = 0 \/ e > t
                   | None => True
                   end)
         (useUnfilledBets.addBets t [] state).
Proof.
  assert (G : forall bs, Forall (fun b => open_at_nonzero t b = true)
                                (useUnfilledBets.addBets t bs state)).
  { intros bs. eapply Forall_impl; [|apply reconcile_keep].
    intros b Hb. now rewrite <- useUnfilledBets_keep_open. }
  repeat split; auto.
  eapply Forall_impl; [|apply (G [])].
  intros b. unfold open_at_nonzero.
  destruct (Bet.expiresAt b) as [e|]; auto.
  rewrite andb_true_iff, orb_true_iff. intros [_ [H|H]].
  - left. now apply Z.eqb_eq.
  - right. now apply Z.gtb_gt.
Qed.

(** C8, counterexample.  A limit order whose expiration is the timestamp 0
    stays after a merge of the empty batch at time 1700000000000, although
    0 is not after that time. *)
Lemma useUnfilledBets_addBets_keeps_expiration_0 :
  ~ Forall (fun b => open_at 1700000000000 b = true)
           (useUnfilledBets.addBets 1700000000000 [] (Some [bet_expires_0])).
Proof.
  intros H.
  assert (E : useUnfilledBets.addBets 1700000000000 [] (Some [bet_expires_0])
              = [bet_expires_0]) by reflexivity.
  rewrite E in H. apply Forall_inv in H. discriminate H.
Qed.

(** ** The polling hook *)

Section SortDescending.
Context {A : Type} (key : A -> Z).

Lemma insertDescending_perm (x : A) (l : list A) :
  Permutation (Lodash.insertDescending key x l) (x :: l).
Proof.
  induction l as [|y l IH]; simpl; auto.
  destruct (key x >=? key y); auto.
  rewrite IH. apply perm_swap.
Qed.

Lemma insertDescending_sorted (x : A) (l : list A) :
  StronglySorted (fun a b => key a >= key b) l ->
  StronglySorted (fun a b => key a >= key b)
                 (Lodash.insertDescending key x l).
Proof.
  induction 1 as [|y l Hs IH Hall]; simpl.
  - repeat constructor.
  - destruct (key x >=? key y) eqn:E.
    + rewrite Z.geb_le in E. constructor; [constructor; auto|].
      constructor; [lia|].
      eapply Forall_impl; [|exact Hall]. simpl; intros; lia.
    + assert (key x < key y).
      { destruct (Z.ltb_spec (key x) (key y)); auto.
        assert ((key x >=? key y) = true) by (rewrite Z.geb_le; lia).
        congruence. }
      constructor; auto.
      eapply Permutation_Forall; [symmetry; apply insertDescending_perm|].
      constructor; auto. lia.
Qed.

Lemma sortByDescending_sorted (l : list A) :
  StronglySorted (fun a b => key a >= key b) (Lodash.sortByDescending key l).
Proof.
  induction l; simpl; [constructor | apply insertDescending_sorted; auto].
Qed.

End SortDescending.

(** Whatever the [order] option, what the hook returns is descending by
    creation time. *)
Lemma useRealtimeBetsPolling_hook_descending
  {Row : Type} (created_time : Row -> string) (convertBet : Row -> Bet.t)
  (toISOString : Z -> string) (options : BetFilter.t)
  (polling : useRealtimeBetsPolling.Query ->
             (option (list Row) -> useRealtimeBetsPolling.Query) ->
             option (list Row)) :
  match useRealtimeBetsPolling.hook created_time convertBet toISOString
          options polling with
  | Some bets => descending bets
  | None => True
  end.
Proof.
  unfold useRealtimeBetsPolling.hook, useRealtimeBetsPolling.returned.
  destruct (polling _ _); auto.
  apply sortByDescending_sorted.
Qed.

(** C6, the failing input.  With [order: 'asc'] and rows created at 150
    and 200, the query for all rows asks for ascending order and the hook
    returns the bet of 200 before the bet of 150. *)
Theorem useRealtimeBetsPolling_asc_returns_descending :
  useRealtimeBetsPolling.ascending
    (useRealtimeBetsPolling.allRowsQ options_asc) = Some true /\
  useRealtimeBetsPolling.hook fst snd example_toISOString options_asc
    example_polling = Some [bet200; bet150] /\
  ~ ascending [bet200; bet150].
Proof.
  repeat split. intros H. inversion H as [|? ? _ Hall]; subst.
  inversion Hall as [|? ? Hle _]; subst.
  vm_compute in Hle. now apply Hle.
Qed.

Lemma str_gt_lt (a b : string) :
  Js.str_gt a b = true <-> String_as_OT.lt b a.
Proof.
  unfold Js.str_gt.
  destruct (String_as_OT.compare_spec a b) as [E|L|G].
  - split; [discriminate|]. intros H. exfalso.
    unfold String_as_OT.eq in E. subst.
    eapply (StrictOrder_Irreflexive (R := String_as_OT.lt)); eauto.
  - split; [discriminate|]. intros H. exfalso.
    eapply (StrictOrder_Irreflexive (R := String_as_OT.lt)).
    eapply (StrictOrder_Transitive (R := String_as_OT.lt)); eauto.
  - split; auto.
Qed.

Lemma str_le_not_lt (a b : string) : str_le a b <-> ~ String_as_OT.lt b a.
Proof.
  unfold str_le. rewrite <- str_gt_lt. destruct (Js.str_gt a b); split;
    congruence.
Qed.

Lemma str_le_refl (a : string) : str_le a a.
Proof.
  apply str_le_not_lt.
  apply (StrictOrder_Irreflexive (R := String_as_OT.lt)).
Qed.

Lemma str_le_trans (a b c : string) : str_le a b -> str_le b c -> str_le a c.
Proof.
  rewrite !str_le_not_lt. intros Hab Hbc Hca.
  destruct (String_as_OT.compare_spec a b) as [E|L|G].
  - unfold String_as_OT.eq in E. subst. auto.
  - apply Hbc.
    eapply (StrictOrder_Transitive (R := String_as_OT.lt)); eauto.
  - auto.
Qed.

Section MaxBy.
Context {Row : Type} (created_time : Row -> string).

Lemma baseExtremum_max (l : list Row) (r : Row) :
  exists m,
    Lodash.baseExtremum created_time (Some r) l = Some m /\
    In m (r :: l) /\
    str_le (created_time r) (created_time m) /\
    Forall (fun x => str_le (created_time x) (created_time m)) l.
Proof.
  revert r. induction l as [|v l IH]; intros r; simpl.
  - exists r. repeat split; auto. apply str_le_refl.
  - destruct (Js.str_gt (created_time v) (created_time r)) eqn:E.
    + destruct (IH v) as [m [Hm [Hin [Hle Hall]]]].
      exists m. split; [exact Hm|]. split; [|split].
      * simpl in Hin |- *. tauto.
      * apply str_le_trans with (created_time v); auto.
        apply str_le_not_lt. apply str_gt_lt in E. intros H.
        eapply (StrictOrder_Irreflexive (R := String_as_OT.lt)).
        eapply (StrictOrder_Transitive (R := String_as_OT.lt)); eauto.
      * constructor; auto.
    + destruct (IH r) as [m [Hm [Hin [Hle Hall]]]].
      exists m. split; [exact Hm|]. split; [|split].
      * simpl in Hin |- *. tauto.
      * exact Hle.
      * constructor; auto.
        apply str_le_trans with (created_time r); [exact E | exact Hle].
Qed.

Lemma maxBy_max (r : Row) (rs : list Row) :
  exists m,
    Lodash.maxBy created_time (Some (r :: rs)) = Some m /\
    In m (r :: rs) /\
    Forall (fun x => str_le (created_time x) (created_time m)) (r :: rs).
Proof.
  destruct (baseExtremum_max rs r) as [m [Hm [Hin [Hle Hall]]]].
  exists m. split; [exact Hm|]. split; [exact Hin|].
  constructor; auto.
Qed.

End MaxBy.

(** C9.  The lower bound given to [.gt('created_time', _)] by the delta
    query is the creation time of a known row that no known row exceeds
    (creation times are the texts the store returns, compared as strings);
    with no rows, or none yet, it is the text of [afterTime], of 0 when
    [afterTime] is not given.  The filter applied to the delta query is the
    scope's without [afterTime]. *)
Theorem newRowsOnlyQ_lower_bound
  {Row : Type} (created_time : Row -> string) (toISOString : Z -> string)
  (options : BetFilter.t) (rows : option (list Row)) :
  match rows with
  | Some (r :: rs) =>
    exists m, In m (r :: rs) /\
      useRealtimeBetsPolling.gt_created_time
        (useRealtimeBetsPolling.newRowsOnlyQ created_time toISOString
           options rows) = Some (created_time m) /\
      Forall (fun x => str_le (created_time x) (created_time m)) (r :: rs)
  | _ =>
    useRealtimeBetsPolling.gt_created_time
      (useRealtimeBetsPolling.newRowsOnlyQ created_time toISOString
         options rows)
    = Some (toISOString match BetFilter.afterTime options with
                        | Some a => a
                        | None => 0
                        end)
  end /\
  useRealtimeBetsPolling.filter
    (useRealtimeBetsPolling.newRowsOnlyQ created_time toISOString options rows)
  = BetFilter.with_afterTime None options /\
  BetFilter.afterTime
    (useRealtimeBetsPolling.filter
       (useRealtimeBetsPolling.newRowsOnlyQ created_time toISOString
          options rows)) = None.
Proof.
  split; [|split; reflexivity].
  destruct rows as [[|r rs]|]; try reflexivity.
  destruct (maxBy_max created_time r rs) as [m [Hm [Hin Hall]]].
  exists m. repeat split; auto.
  unfold useRealtimeBetsPolling.newRowsOnlyQ. now rewrite Hm.
Qed.

(** ** The contract scenario *)

Section Scenario.

Lemma seen_ids_app (i : string) (l1 l2 : list Bet.t) :
  existsb (String.eqb i) (ids (l1 ++ l2)) =
  existsb (String.eqb i) (ids l1) || existsb (String.eqb i) (ids l2).
Proof. unfold ids. now rewrite map_app, existsb_app. Qed.

Lemma seen150_200_app (l m : list Bet.t) :
  seen150_200 (seen150_200 l ++ m) = seen150_200 (l ++ m).
Proof.
  unfold seen150_200 at 1 3. rewrite !seen_ids_app. f_equal.
  - replace (existsb (String.eqb "b150") (ids (seen150_200 l)))
      with (existsb (String.eqb "b150") (ids l)); auto.
    unfold seen150_200.
    destruct (existsb (String.eqb "b150") (ids l)),
             (existsb (String.eqb "b200") (ids l)); reflexivity.
  - replace (existsb (String.eqb "b200") (ids (seen150_200 l)))
      with (existsb (String.eqb "b200") (ids l)); auto.
    unfold seen150_200.
    destruct (existsb (String.eqb "b150") (ids l)),
             (existsb (String.eqb "b200") (ids l)); reflexivity.
Qed.

Lemma seen150_200_idem (l : list Bet.t) :
  seen150_200 (seen150_200 l) = seen150_200 l.
Proof.
  pose proof (seen150_200_app l []) as H. now rewrite !app_nil_r in H.
Qed.

(** A collection of the two bets after 100 that is ascending and without
    duplicates is determined by which of the two it holds. *)
Lemma two_bets_canonical (r : list Bet.t) :
  Forall (fun x => x = bet150 \/ x = bet200) r ->
  NoDup (ids r) -> ascending r -> r = seen150_200 r.
Proof.
  intros Hall Hnd Hasc.
  destruct r as [|x [|y [|z r]]].
  - reflexivity.
  - inversion Hall as [|? ? [->| ->] _]; reflexivity.
  - inversion Hall as [|? ? Hx Hall']; subst.
    inversion Hall' as [|? ? Hy _]; subst.
    destruct Hx as [-> | ->], Hy as [-> | ->]; try reflexivity; exfalso.
    + inversion Hnd as [|? ? Hn _]; subst. apply Hn. simpl; auto.
    + inversion Hasc as [|? ? _ Hle]; subst.
      inversion Hle as [|? ? H _]; subst. vm_compute in H. now apply H.
    + inversion Hnd as [|? ? Hn _]; subst. apply Hn. simpl; auto.
  - exfalso.
    inversion Hall as [|? ? Hx Hall']; subst.
    inversion Hall' as [|? ? Hy Hall'']; subst.
    inversion Hall'' as [|? ? Hz _]; subst.
    inversion Hnd as [|? ? Hn1 Hnd']; subst.
    inversion Hnd' as [|? ? Hn2 _]; subst.
    destruct Hx as [-> | ->], Hy as [-> | ->], Hz as [-> | ->];
      simpl in Hn1, Hn2; tauto.
Qed.

Lemma first_with_id_some (i : string) (l : list Bet.t) :
  existsb (String.eqb i) (ids l) = true ->
  exists y, first_with_id i l = Some y /\ In y l /\ Bet.id y = i.
Proof.
  intros H. apply seen_In in H. unfold first_with_id.
  destruct (find (fun b => (Bet.id b =? i)%string) l) as [y|] eqn:E.
  - exists y. apply find_some in E. destruct E as [Hy Hi].
    apply String.eqb_eq in Hi. auto.
  - apply find_None_not_In in E. contradiction.
Qed.

(** One merge step on bets of the scenario. *)
Lemma scenario_step (s b : list Bet.t) :
  Forall (fun x => In x [bet50; bet150; bet200]) (s ++ b) ->
  useSubscribeNewBets.addBets 100 false b s = seen150_200 (s ++ b).
Proof.
  intros Hall. rewrite Forall_forall in Hall.
  rewrite useSubscribeNewBets_addBets_eq.
  set (r := reconcile (useSubscribeNewBets.keep 100 false) (s ++ b)).
  assert (Hin : forall x, In x r <->
            (x = bet150 \/ x = bet200) /\
            existsb (String.eqb (Bet.id x)) (ids (s ++ b)) = true).
  { intros x. unfold r. rewrite reconcile_In. split.
    - intros [Hk Hf]. unfold first_with_id in Hf.
      apply find_some in Hf. destruct Hf as [Hx _]. split.
      + specialize (Hall x Hx). simpl in Hall.
        destruct Hall as [<-|[<-|[<-|[]]]]; auto. discriminate Hk.
      + apply seen_In. now apply in_map.
    - intros [Hx Hs]. split; [destruct Hx as [-> | ->]; reflexivity|].
      destruct (first_with_id_some _ _ Hs) as [y [Hf [Hy Hid]]].
      rewrite Hf. f_equal.
      specialize (Hall y Hy). simpl in Hall.
      destruct Hall as [<-|[<-|[<-|[]]]], Hx as [-> | ->];
        try reflexivity; discriminate Hid. }
  rewrite (two_bets_canonical r).
  - unfold seen150_200. f_equal.
    + replace (existsb (String.eqb "b150") (ids r))
        with (existsb (String.eqb "b150") (ids (s ++ b))); auto.
      apply eq_true_iff_eq. rewrite (seen_In "b150" (ids r)).
      split.
      * intros H. apply (in_map Bet.id r bet150). apply Hin. auto.
      * intros H. unfold ids in H. apply in_map_iff in H.
        destruct H as [x [Hid Hx]]. apply Hin in Hx.
        destruct Hx as [[-> | ->] Hs]; [exact Hs | discriminate Hid].
    + replace (existsb (String.eqb "b200") (ids r))
        with (existsb (String.eqb "b200") (ids (s ++ b))); auto.
      apply eq_true_iff_eq. rewrite (seen_In "b200" (ids r)).
      split.
      * intros H. apply (in_map Bet.id r bet200). apply Hin. auto.
      * intros H. unfold ids in H. apply in_map_iff in H.
        destruct H as [x [Hid Hx]]. apply Hin in Hx.
        destruct Hx as [[-> | ->] Hs]; [discriminate Hid | exact Hs].
  - apply Forall_forall. intros x Hx. now apply Hin in Hx.
  - apply reconcile_NoDup.
  - apply reconcile_ascending.
Qed.

Lemma seen150_200_scenario (l : list Bet.t) :
  Forall (fun x => In x [bet50; bet150; bet200]) (seen150_200 l).
Proof.
  unfold seen150_200.
  destruct (existsb (String.eqb "b150") (ids l)),
           (existsb (String.eqb "b200") (ids l)); simpl;
    repeat (apply Forall_cons; [simpl; auto 6|]); apply Forall_nil.
Qed.

(** Merges of bets of the scenario, from a state the scenario reaches. *)
Lemma scenario_merges (batches : list (list Bet.t)) (s : list Bet.t) :
  s = seen150_200 s ->
  Forall (fun x => In x [bet50; bet150; bet200]) (List.concat batches) ->
  merges (useSubscribeNewBets.addBets 100 false) batches s =
  seen150_200 (s ++ List.concat batches).
Proof.
  revert s. induction batches as [|b bs IH]; intros s Hs Hall; simpl.
  - now rewrite app_nil_r.
  - simpl in Hall. apply Forall_app in Hall. destruct Hall as [Hb Hbs].
    unfold merges in *. simpl.
    assert (Hstep : useSubscribeNewBets.addBets 100 false b s =
                    seen150_200 (s ++ b)).
    { apply scenario_step. apply Forall_app. split; auto.
      rewrite Hs. apply seen150_200_scenario. }
    rewrite Hstep, IH; auto.
    + now rewrite seen150_200_app, app_assoc.
    + symmetry. apply seen150_200_idem.
Qed.

Lemma seen_id_of_In (x : Bet.t) (l : list Bet.t) :
  In x l -> existsb (String.eqb (Bet.id x)) (ids l) = true.
Proof. intros H. apply seen_In. now apply in_map. Qed.

End Scenario.

Lemma reconcile_ext_in (keep keep' : Bet.t -> bool) (l : list Bet.t) :
  (forall x, In x l -> keep x = keep' x) ->
  reconcile keep l = reconcile keep' l.
Proof.
  intros H. unfold reconcile. apply filter_ext_in. intros x Hx.
  apply H. apply sortBy_In in Hx. unfold Lodash.uniqBy in Hx.
  now apply baseUniq_In in Hx.
Qed.

(** One merge step on bets of the scenario, redemptions included or not. *)
Lemma scenario_step_any (r : bool) (s b : list Bet.t) :
  Forall (fun x => In x [bet50; bet150; bet200]) (s ++ b) ->
  useSubscribeNewBets.addBets 100 r b s = seen150_200 (s ++ b).
Proof.
  intros Hall. rewrite <- (scenario_step s b Hall).
  rewrite !useSubscribeNewBets_addBets_eq. apply reconcile_ext_in.
  intros x Hx. rewrite Forall_forall in Hall. specialize (Hall x Hx).
  simpl in Hall. destruct Hall as [<-|[<-|[<-|[]]]], r; reflexivity.
Qed.

(** Arrivals of bets of the scenario, from a state the scenario reaches. *)
Lemma scenario_received (r : bool) (arrivals : list Arrival)
      (s : list Bet.t) :
  s = seen150_200 s ->
  Forall (fun x => In x [bet50; bet150; bet200])
         (List.concat (map (useSubscribeNewBets_handed "M1" 100 r) arrivals)) ->
  merges (useSubscribeNewBets_receive "M1" 100 r) arrivals s =
  seen150_200
    (s ++ List.concat (map (useSubscribeNewBets_handed "M1" 100 r) arrivals)).
Proof.
  unfold merges. revert s.
  induction arrivals as [|a arrivals IH]; intros s Hs Hall; simpl.
  - now rewrite app_nil_r.
  - simpl in Hall. apply Forall_app in Hall. destruct Hall as [Ha Hrest].
    assert (Hstep : useSubscribeNewBets_receive "M1" 100 r a s =
                    seen150_200 (s ++ useSubscribeNewBets_handed "M1" 100 r a)).
    { assert (Hsa : Forall (fun x => In x [bet50; bet150; bet200])
                           (s ++ useSubscribeNewBets_handed "M1" 100 r a)).
      { apply Forall_app. split; auto.
        rewrite Hs. apply seen150_200_scenario. }
      destruct a as [db|topic bets];
        unfold useSubscribeNewBets_receive, useSubscribeNewBets_handed in *.
      - now apply scenario_step_any.
      - destruct (subscribed _ topic).
        + now apply scenario_step_any.
        + now rewrite app_nil_r. }
    rewrite Hstep, IH; auto.
    + now rewrite seen150_200_app, app_assoc.
    + symmetry. apply seen150_200_idem.
Qed.

(** C7.  The scope of contract "M1" after time 100 is the hook
    [useSubscribeNewBets("M1", {afterTime: 100})], redemptions included or
    not.  The bets of M1 created at 50, 150 and 200 and the bet of M2 created
    at 160 arrive in any number of answers to the fetch and of broadcast
    messages, in any order and as often as one likes, each message on the
    new-bet topic of the contract of its bets.  From the empty collection
    the hook ends with the bet of 150 followed by the bet of 200: the bet of
    M2 is not handed to [addBets], neither by the fetch, whose filter names
    the contract, nor by the subscription, whose topic names it, and
    [addBets] drops the bet of 50. *)
Theorem scenario_M1_after_100_received
  (includeRedemptions : bool) (arrivals : list Arrival) :
  (forall x, In x (List.concat (map arriving arrivals)) <->
             In x [bet50; bet150; bet200; bet160]) ->
  (forall topic bets b,
      In (Message topic bets) arrivals -> In b bets ->
      In topic (useSubscribeNewBets.topics (Bet.contractId b))) ->
  merges (useSubscribeNewBets_receive "M1" 100 includeRedemptions)
         arrivals [] = [bet150; bet200].
Proof.
  intros Hbets Hroute.
  assert (Hhanded : forall a x,
             In a arrivals ->
             In x (useSubscribeNewBets_handed "M1" 100 includeRedemptions a) ->
             In x (arriving a) /\ In x [bet50; bet150; bet200]).
  { intros a x Ha Hx.
    assert (Hfour : In x (arriving a) -> In x [bet50; bet150; bet200; bet160]).
    { intros H. apply Hbets. apply in_concat. exists (arriving a).
      split; auto. now apply in_map. }
    destruct a as [db|topic bets]; simpl in Hx.
    - unfold getBets in Hx. apply filter_In in Hx. destruct Hx as [Hx Hm].
      split; auto. specialize (Hfour Hx). simpl in Hfour.
      destruct Hfour as [<-|[<-|[<-|[<-|[]]]]]; simpl; auto.
      destruct includeRedemptions; discriminate Hm.
    - destruct (topic =? "contract/M1/new-bet")%string eqn:Hs;
        simpl in Hx; [|destruct Hx].
      split; auto. specialize (Hfour Hx). simpl in Hfour.
      destruct Hfour as [<-|[<-|[<-|[<-|[]]]]]; simpl; auto.
      exfalso. specialize (Hroute topic bets bet160 Ha Hx).
      simpl in Hroute. destruct Hroute as [<-|[]]. discriminate Hs. }
  assert (Hreach : forall x, In x [bet150; bet200] ->
             In x (List.concat
                     (map (useSubscribeNewBets_handed "M1" 100
                             includeRedemptions) arrivals))).
  { intros x Hx.
    assert (Hin : In x (List.concat (map arriving arrivals))).
    { apply Hbets. simpl in *. tauto. }
    apply in_concat in Hin. destruct Hin as [l [Hl Hxl]].
    apply in_map_iff in Hl. destruct Hl as [a [<- Ha]].
    apply in_concat.
    exists (useSubscribeNewBets_handed "M1" 100 includeRedemptions a).
    split; [now apply in_map|].
    destruct a as [db|topic bets]; simpl in *.
    - unfold getBets. apply filter_In. split; auto.
      destruct Hx as [<-|[<-|[]]], includeRedemptions; reflexivity.
    - specialize (Hroute topic bets x Ha Hxl).
      destruct Hx as [<-|[<-|[]]]; simpl in Hroute;
        destruct Hroute as [<-|[]]; simpl; exact Hxl. }
  rewrite scenario_received; [|reflexivity|].
  - simpl. unfold seen150_200.
    rewrite (seen_id_of_In bet150), (seen_id_of_In bet200);
      [reflexivity| |]; apply Hreach; simpl; auto.
  - apply Forall_forall. intros x Hx.
    apply in_concat in Hx. destruct Hx as [l [Hl Hxl]].
    apply in_map_iff in Hl. destruct Hl as [a [<- Ha]].
    now apply (Hhanded a x Ha).
Qed.

Lemma scenario_M1_after_100_received_witness :
  merges (useSubscribeNewBets_receive "M1" 100 false)
         [ Message "contract/M2/new-bet" [bet160];
           Fetch [bet160; bet50; bet150];
           Message "contract/M1/new-bet" [bet200; bet50] ] []
  = [bet150; bet200].
Proof.
  apply (scenario_M1_after_100_received false
           [ Message "contract/M2/new-bet" [bet160];
             Fetch [bet160; bet50; bet150];
             Message "contract/M1/new-bet" [bet200; bet50] ]).
  - intros x. simpl. tauto.
  - intros topic bets b Hin Hb. simpl in Hin.
    destruct Hin as [E|[E|[E|[]]]]; inversion E; subst; simpl in Hb.
    + destruct Hb as [<-|[]]. simpl. auto.
    + destruct Hb as [<-|[<-|[]]]; simpl; auto.
Defined.

(** * Further properties of the hooks *)

(** ** Membership after a merge *)

Lemma useSubscribeNewBets_keep_flag (a : Z) (r : bool) (x : Bet.t) :
  useSubscribeNewBets.keep a r x =
  (Bet.createdTime x >? a) && (r || negb (flag (Bet.isRedemption x))).
Proof.
  unfold useSubscribeNewBets.keep, Js.not. now rewrite truthy_of_bool.
Qed.

Lemma reconcile_of_reconciled (keep keep' : Bet.t -> bool) (l : list Bet.t) :
  reconcile keep' (reconcile keep l) = filter keep' (reconcile keep l).
Proof.
  unfold reconcile at 1.
  rewrite uniqBy_NoDup_id by apply reconcile_NoDup.
  f_equal. apply sortBy_sorted_id, reconcile_ascending.
Qed.

(** X1.  A bet is in the collection [useSubscribeNewBets.addBets] (and
    [useSubscribeGlobalBets.addBets]) returns exactly when it was created
    after [afterTime], is no redemption unless redemptions are included,
    and is the first record with its identity in the current collection
    followed by the batch. *)
Theorem useSubscribeNewBets_addBets_In_iff
  (afterTime : Z) (includeRedemptions : bool)
  (batch current : list Bet.t) (x : Bet.t) :
  (In x (useSubscribeNewBets.addBets afterTime includeRedemptions
           batch current) <->
   (Bet.createdTime x >? afterTime) &&
   (includeRedemptions || negb (flag (Bet.isRedemption x))) = true /\
   first_with_id (Bet.id x) (current ++ batch) = Some x) /\
  (In x (useSubscribeGlobalBets.addBets afterTime includeRedemptions
           batch current) <->
   (Bet.createdTime x >? afterTime) &&
   (includeRedemptions || negb (flag (Bet.isRedemption x))) = true /\
   first_with_id (Bet.id x) (current ++ batch) = Some x).
Proof.
  rewrite <- useSubscribeNewBets_keep_flag.
  split.
  - rewrite useSubscribeNewBets_addBets_eq. apply reconcile_In.
  - rewrite useSubscribeGlobalBets_addBets_eq. apply reconcile_In.
Qed.

(** X2.  A limit order is in the collection [useUnfilledBets.addBets]
    returns at time [t] exactly when it is not filled, not cancelled, has no
    expiration, the expiration 0 or one after [t], and is the first record
    with its identity in the batch followed by the state. *)
Theorem useUnfilledBets_addBets_In_iff
  (t : Z) (batch : list LimitBet) (state : option (list LimitBet))
  (x : LimitBet) :
  In x (useUnfilledBets.addBets t batch state) <->
  open_at_nonzero t x = true /\
  first_with_id (Bet.id x) (batch ++ Js.nullish state []) = Some x.
Proof.
  rewrite useUnfilledBets_addBets_eq, reconcile_In.
  now rewrite useUnfilledBets_keep_open.
Qed.

(** X3.  Once a bet is in the collection of [useSubscribeNewBets], a later
    merge with the same parameters keeps it, whatever the batch. *)
Theorem useSubscribeNewBets_addBets_keeps_members
  (afterTime : Z) (includeRedemptions : bool)
  (batch current later : list Bet.t) (x : Bet.t) :
  In x (useSubscribeNewBets.addBets afterTime includeRedemptions
          batch current) ->
  In x (useSubscribeNewBets.addBets afterTime includeRedemptions later
          (useSubscribeNewBets.addBets afterTime includeRedemptions
             batch current)).
Proof.
  intros Hx. rewrite (useSubscribeNewBets_addBets_eq _ _ later).
  apply reconcile_In. split.
  - rewrite useSubscribeNewBets_addBets_eq in Hx.
    now apply reconcile_In in Hx.
  - unfold first_with_id. rewrite find_app.
    rewrite (find_In_NoDup Bet.id x); auto.
    rewrite useSubscribeNewBets_addBets_eq. apply reconcile_NoDup.
Qed.

Lemma useSubscribeNewBets_addBets_keeps_members_witness :
  In bet150
     (useSubscribeNewBets.addBets 100 false [bet160; bet50]
        (useSubscribeNewBets.addBets 100 false [bet150; bet200] [])).
Proof.
  apply (useSubscribeNewBets_addBets_keeps_members 100 false
           [bet150; bet200] [] [bet160; bet50] bet150).
  vm_compute. auto.
Defined.

(** X4.  For a collection [useSubscribeNewBets.addBets] returned, merging
    the empty batch changes nothing, and merging any batch twice gives what
    merging it once gives. *)
Theorem useSubscribeNewBets_addBets_on_merged
  (afterTime : Z) (includeRedemptions : bool)
  (batch current later : list Bet.t) :
  useSubscribeNewBets.addBets afterTime includeRedemptions []
    (useSubscribeNewBets.addBets afterTime includeRedemptions batch current)
  = useSubscribeNewBets.addBets afterTime includeRedemptions batch current /\
  useSubscribeNewBets.addBets afterTime includeRedemptions later
    (useSubscribeNewBets.addBets afterTime includeRedemptions later
       (useSubscribeNewBets.addBets afterTime includeRedemptions
          batch current))
  = useSubscribeNewBets.addBets afterTime includeRedemptions later
      (useSubscribeNewBets.addBets afterTime includeRedemptions
         batch current).
Proof.
  split.
  - rewrite (useSubscribeNewBets_addBets_eq _ _ []), app_nil_r.
    rewrite useSubscribeNewBets_addBets_eq, reconcile_of_reconciled.
    apply filter_all, reconcile_keep.
  - rewrite !(useSubscribeNewBets_addBets_eq _ _ later).
    apply reconcile_again_back_kept.
    rewrite useSubscribeNewBets_addBets_eq. apply reconcile_keep.
Qed.

(** X5.  Merging the empty batch into a collection of [useUnfilledBets] at
    a time [t'] removes the orders that are not open at [t'] and nothing
    else, and leaves the order of the others. *)
Theorem useUnfilledBets_addBets_empty_batch
  (t t' : Z) (batch : list LimitBet) (state : option (list LimitBet)) :
  useUnfilledBets.addBets t' []
    (Some (useUnfilledBets.addBets t batch state)) =
  filter (open_at_nonzero t') (useUnfilledBets.addBets t batch state).
Proof.
  rewrite (useUnfilledBets_addBets_eq t' []). simpl.
  rewrite useUnfilledBets_addBets_eq, reconcile_of_reconciled.
  apply filter_ext. intros b. apply useUnfilledBets_keep_open.
Qed.

(** X6.  When the first record the batch has for an identity is filled,
    cancelled or expired at [t], the collection [useUnfilledBets.addBets]
    returns has no order with that identity, whatever the state held. *)
Theorem useUnfilledBets_addBets_closed_record_removes
  (t : Z) (batch : list LimitBet) (state : option (list LimitBet))
  (x : LimitBet) :
  first_with_id (Bet.id x) batch = Some x ->
  open_at_nonzero t x = false ->
  ~ In (Bet.id x) (ids (useUnfilledBets.addBets t batch state)).
Proof.
  intros Hf Hc Hin. unfold ids in Hin. apply in_map_iff in Hin.
  destruct Hin as [y [Hid Hy]].
  rewrite useUnfilledBets_addBets_eq in Hy. apply reconcile_In in Hy.
  rewrite useUnfilledBets_keep_open in Hy. destruct Hy as [Ho Hy].
  unfold first_with_id in *. rewrite Hid, find_app, Hf in Hy.
  injection Hy as <-. congruence.
Qed.

Lemma useUnfilledBets_addBets_closed_record_removes_witness :
  ~ In "a"%string
      (ids (useUnfilledBets.addBets 20 [bet_a_filled; bet_expires_0]
              (Some [bet_a]))).
Proof.
  apply (useUnfilledBets_addBets_closed_record_removes 20
           [bet_a_filled; bet_expires_0] (Some [bet_a]) bet_a_filled);
    reflexivity.
Defined.

(** X7.  An order of the collection of [useUnfilledBets] that is still open
    at the time of the next merge and whose identity is not in the batch
    stays in the collection. *)
Theorem useUnfilledBets_addBets_keeps_open_orders
  (t t' : Z) (batch later : list LimitBet) (state : option (list LimitBet))
  (x : LimitBet) :
  In x (useUnfilledBets.addBets t batch state) ->
  ~ In (Bet.id x) (ids later) ->
  open_at_nonzero t' x = true ->
  In x (useUnfilledBets.addBets t' later
          (Some (useUnfilledBets.addBets t batch state))).
Proof.
  intros Hx Hn Ho.
  rewrite (useUnfilledBets_addBets_eq t' later). apply reconcile_In.
  rewrite useUnfilledBets_keep_open. split; auto.
  unfold first_with_id. rewrite find_app.
  apply (find_None_not_In Bet.id) in Hn. rewrite Hn. simpl.
  apply (find_In_NoDup Bet.id); auto.
  rewrite useUnfilledBets_addBets_eq. apply reconcile_NoDup.
Qed.

Lemma useUnfilledBets_addBets_keeps_open_orders_witness :
  In bet_a
     (useUnfilledBets.addBets 30 [bet_expires_0]
        (Some (useUnfilledBets.addBets 20 [bet_a] None))).
Proof.
  apply (useUnfilledBets_addBets_keeps_open_orders 20 30
           [bet_a] [bet_expires_0] None bet_a).
  - vm_compute. auto.
  - vm_compute. intros [H|[]]. discriminate H.
  - reflexivity.
Defined.

(** ** Merging in several batches *)

Section MoreSortFacts.
Context {A : Type} (key : A -> Z).

Lemma insertAscending_comm (x y : A) (l : list A) :
  key y < key x ->
  Lodash.insertAscending key y (Lodash.insertAscending key x l) =
  Lodash.insertAscending key x (Lodash.insertAscending key y l).
Proof.
  intros Hyx. induction l as [|z l IH]; simpl.
  - destruct (Z.leb_spec (key y) (key x)), (Z.leb_spec (key x) (key y));
      try lia; reflexivity.
  - destruct (Z.leb_spec (key x) (key z)) as [Hxz|Hxz];
      destruct (Z.leb_spec (key y) (key z)) as [Hyz|Hyz]; simpl;
      try lia.
    + destruct (Z.leb_spec (key y) (key x)), (Z.leb_spec (key x) (key y));
        try lia.
      destruct (Z.leb_spec (key x) (key z)); try lia. reflexivity.
    + destruct (Z.leb_spec (key y) (key z)),
               (Z.leb_spec (key x) (key y)); try lia.
      simpl. destruct (Z.leb_spec (key x) (key z)); try lia. reflexivity.
    + destruct (Z.leb_spec (key y) (key z)),
               (Z.leb_spec (key x) (key z)); try lia.
      now rewrite IH.
Qed.

Lemma sortBy_app_fold (a b : list A) :
  Lodash.sortBy key (a ++ b) =
  fold_right (Lodash.insertAscending key) (Lodash.sortBy key b) a.
Proof. induction a as [|x a IH]; simpl; auto. now rewrite IH. Qed.

Lemma fold_insertAscending_insert (x : A) (t r : list A) :
  fold_right (Lodash.insertAscending key) r (Lodash.insertAscending key x t) =
  Lodash.insertAscending key x
    (fold_right (Lodash.insertAscending key) r t).
Proof.
  induction t as [|y t IH]; simpl; auto.
  destruct (Z.leb_spec (key x) (key y)) as [H|H]; simpl; auto.
  rewrite IH. now apply insertAscending_comm.
Qed.

(** Sorting the front of a list first does not change the sorted list. *)
Lemma sortBy_sortBy_app (a b : list A) :
  Lodash.sortBy key (Lodash.sortBy key a ++ b) = Lodash.sortBy key (a ++ b).
Proof.
  induction a as [|x a IH]; simpl; auto.
  rewrite sortBy_app_fold, fold_insertAscending_insert.
  now rewrite <- sortBy_app_fold, IH.
Qed.

End MoreSortFacts.

Section MoreUniqFacts.
Context {A : Type} (f : A -> string).

(** Deduplication with identities already seen is deduplication followed
    by the removal of those identities. *)
Lemma baseUniq_seen_filter (s s' : list string) (l : list A) :
  Lodash.baseUniq f (s ++ s') l =
  filter (fun x => negb (existsb (String.eqb (f x)) s))
         (Lodash.baseUniq f s' l).
Proof.
  revert s'. induction l as [|x l IH]; intros s'; simpl; auto.
  rewrite existsb_app.
  destruct (existsb (String.eqb (f x)) s') eqn:E'.
  - rewrite orb_true_r. apply IH.
  - rewrite orb_false_r. simpl.
    destruct (existsb (String.eqb (f x)) s) eqn:E; simpl.
    + rewrite <- IH. apply baseUniq_ext. intros j.
      apply seen_In in E. rewrite !in_app_iff. simpl.
      intuition (subst; auto).
    + f_equal. rewrite <- IH. apply baseUniq_ext. intros j.
      simpl. rewrite !in_app_iff. simpl. tauto.
Qed.

Lemma filter_baseUniq_seen (keep : A -> bool) (s1 s2 : list string)
      (l : list A) :
  (forall i, In i s1 -> In i s2) ->
  (forall x, In x l -> In (f x) s2 -> ~ In (f x) s1 -> keep x = false) ->
  filter keep (Lodash.baseUniq f s1 l) = filter keep (Lodash.baseUniq f s2 l).
Proof.
  revert s1 s2. induction l as [|x l IH]; intros s1 s2 Hsub Hk; simpl; auto.
  destruct (existsb (String.eqb (f x)) s1) eqn:E1.
  - apply seen_In in E1. pose proof (Hsub _ E1) as E2.
    apply seen_In in E2. rewrite E2. apply IH; auto.
    intros y Hy. apply Hk. now right.
  - assert (N1 : ~ In (f x) s1).
    { rewrite <- seen_In. congruence. }
    destruct (existsb (String.eqb (f x)) s2) eqn:E2.
    + apply seen_In in E2. simpl.
      rewrite (Hk x (or_introl eq_refl) E2 N1).
      apply IH.
      * intros i [<-|Hi]; auto.
      * intros y Hy H2 H1.
        apply Hk; [now right | assumption | intros C; apply H1; now right].
    + assert (G : filter keep (Lodash.baseUniq f (f x :: s1) l) =
                  filter keep (Lodash.baseUniq f (f x :: s2) l)).
      { apply IH.
        - intros i [<-|Hi]; simpl; auto.
        - intros y Hy [E|H2] H1.
          + exfalso. apply H1. now left.
          + apply Hk; [now right | assumption
                      | intros C; apply H1; now right]. }
      simpl. now rewrite G.
Qed.

End MoreUniqFacts.

Lemma filter_filter_sub {A : Type} (p q : A -> bool) (l : list A) :
  (forall x, p x = true -> q x = true) ->
  filter p (filter q l) = filter p l.
Proof.
  intros H. induction l as [|x l IH]; simpl; auto.
  destruct (q x) eqn:Q; simpl.
  - now rewrite IH.
  - rewrite IH. destruct (p x) eqn:P; auto.
    apply H in P. congruence.
Qed.

Lemma filter_filter_comm {A : Type} (p q : A -> bool) (l : list A) :
  filter p (filter q l) = filter q (filter p l).
Proof.
  induction l as [|x l IH]; simpl; auto.
  destruct (q x) eqn:Q, (p x) eqn:P; simpl; rewrite ?Q, ?P, IH; auto.
Qed.

(** With the batch in front: merging into a merged collection is merging
    into the records it was merged from, when the second filter keeps
    nothing the first one removed. *)
Lemma reconcile_front_merge (keep1 keep2 : Bet.t -> bool)
      (b l : list Bet.t) :
  (forall x, keep2 x = true -> keep1 x = true) ->
  reconcile keep2 (b ++ reconcile keep1 l) = reconcile keep2 (b ++ l).
Proof.
  intros Hsub.
  set (fresh := fun x : Bet.t =>
                  negb (existsb (String.eqb (Bet.id x)) (map Bet.id b))).
  set (u := Lodash.baseUniq Bet.id [] l).
  assert (E1 : Lodash.baseUniq Bet.id (map Bet.id b) (reconcile keep1 l) =
               Lodash.sortBy Bet.createdTime (filter keep1 (filter fresh u))).
  { rewrite baseUniq_NoDup_filter by apply reconcile_NoDup. fold fresh.
    unfold reconcile, Lodash.uniqBy. fold u.
    rewrite (filter_sortBy Bet.createdTime keep1).
    rewrite (filter_sortBy Bet.createdTime fresh). f_equal.
    apply filter_filter_comm. }
  assert (E2 : Lodash.baseUniq Bet.id (map Bet.id b) l = filter fresh u).
  { pose proof (baseUniq_seen_filter Bet.id (map Bet.id b) [] l) as H.
    now rewrite app_nil_r in H. }
  revert E1. generalize (reconcile keep1 l). intros r E1.
  unfold reconcile, Lodash.uniqBy.
  rewrite !baseUniq_app, !app_nil_r.
  rewrite E1, E2, sortBy_app_sortBy, !filter_sortBy, !filter_app.
  now rewrite filter_filter_sub.
Qed.

(** With the batch behind: the same, when a record of the batch that
    passes the filter does not meet an earlier record with its identity
    that fails it. *)
Lemma reconcile_back_merge (keep : Bet.t -> bool) (l b : list Bet.t) :
  (forall y x, In y l -> In x b -> Bet.id y = Bet.id x ->
               keep x = true -> keep y = true) ->
  reconcile keep (reconcile keep l ++ b) = reconcile keep (l ++ b).
Proof.
  intros H.
  set (r := reconcile keep l).
  assert (Hr : r = Lodash.sortBy Bet.createdTime
                     (filter keep (Lodash.baseUniq Bet.id [] l))).
  { unfold r, reconcile, Lodash.uniqBy. apply filter_sortBy. }
  unfold reconcile at 1 2. unfold Lodash.uniqBy.
  rewrite !baseUniq_app, !app_nil_r, !filter_sortBy, !filter_app.
  fold (Lodash.uniqBy Bet.id r).
  rewrite uniqBy_NoDup_id by apply reconcile_NoDup.
  rewrite (filter_all keep r) by apply reconcile_keep.
  rewrite Hr at 1. rewrite sortBy_sortBy_app. do 2 f_equal.
  apply filter_baseUniq_seen.
  - intros i Hi. apply in_map_iff in Hi. destruct Hi as [y [<- Hy]].
    apply reconcile_In in Hy. destruct Hy as [_ Hy].
    apply find_some in Hy. apply in_map, Hy.
  - intros x Hx Hl Hnr. apply not_true_is_false. intros Hk. apply Hnr.
    destruct (find (fun b0 => (Bet.id b0 =? Bet.id x)%string) l)
      as [y|] eqn:Ey.
    + pose proof (find_some _ _ Ey) as [Hy Hid].
      apply String.eqb_eq in Hid.
      rewrite <- Hid. apply (in_map Bet.id r y). apply reconcile_In. split.
      * eauto.
      * unfold first_with_id. now rewrite Hid.
    + apply find_None_not_In in Ey. contradiction.
Qed.

Lemma useUnfilledBets_keep_later (t1 t2 : Z) (x : LimitBet) :
  t1 <= t2 ->
  useUnfilledBets.keep t2 x = true -> useUnfilledBets.keep t1 x = true.
Proof.
  intros Ht. rewrite !useUnfilledBets_keep_open. unfold open_at_nonzero.
  destruct (Bet.expiresAt x) as [e|]; auto.
  rewrite !andb_true_iff, !orb_true_iff, !Z.gtb_gt.
  intros [H [He|He]]; split; auto. right. lia.
Qed.

Lemma records_agree_incl (l l' : list Bet.t) :
  (forall x, In x l' -> In x l) -> records_agree l -> records_agree l'.
Proof.
  intros Hin H y x Hy Hx. apply H; auto.
Qed.

Lemma reconcile_incl (keep : Bet.t -> bool) (l : list Bet.t) (x : Bet.t) :
  In x (reconcile keep l) -> In x l.
Proof.
  intros H. apply reconcile_In in H. destruct H as [_ H].
  now apply find_some in H.
Qed.

(** X8.  For [useUnfilledBets], after merges at times that do not
    decrease, the state is what one merge at the last time gives for all the
    batches put together, the latest batch first: how the records were
    split into batches and when the earlier merges ran does not matter. *)
Theorem useUnfilledBets_merges_as_one
  (events : list (Z * list LimitBet)) (t : Z) (batch : list LimitBet)
  (state : option (list LimitBet)) :
  StronglySorted Z.le (map fst (events ++ [(t, batch)])) ->
  merges useUnfilledBets_setBets (events ++ [(t, batch)]) state =
  Some (useUnfilledBets.addBets t
          (batch ++ List.concat (rev (map snd events))) state).
Proof.
  unfold merges. revert state.
  induction events as [|[t1 b1] ev IH]; intros state Hs; simpl.
  - now rewrite app_nil_r.
  - simpl in Hs. inversion Hs as [|? ? Hs' Hle]; subst.
    rewrite IH by assumption.
    unfold useUnfilledBets_setBets at 1. simpl.
    rewrite (useUnfilledBets_addBets_eq t). simpl.
    rewrite (useUnfilledBets_addBets_eq t1), reconcile_front_merge.
    + rewrite useUnfilledBets_addBets_eq.
      now rewrite concat_app, <- !app_assoc; simpl; rewrite app_nil_r.
    + intros x. apply useUnfilledBets_keep_later.
      rewrite Forall_forall in Hle. apply Hle.
      rewrite map_app, in_app_iff. right. simpl. auto.
Qed.

Lemma useUnfilledBets_merges_as_one_witness :
  merges useUnfilledBets_setBets
         [(10, [bet_a]); (20, [bet_expires_0]); (30, [bet_a_filled])] None =
  Some (useUnfilledBets.addBets 30
          ([bet_a_filled] ++ [bet_expires_0] ++ [bet_a]) None).
Proof.
  apply (useUnfilledBets_merges_as_one
           [(10, [bet_a]); (20, [bet_expires_0])] 30 [bet_a_filled] None).
  simpl. repeat constructor; lia.
Defined.

(** X9.  For [useSubscribeNewBets], when records with one identity agree on
    creation time and redemption flag, merging the batches one after the
    other gives what one merge of all of them put together gives. *)
Theorem useSubscribeNewBets_merges_as_one
  (afterTime : Z) (includeRedemptions : bool)
  (batch : list Bet.t) (batches : list (list Bet.t)) (current : list Bet.t) :
  records_agree (current ++ List.concat (batch :: batches)) ->
  merges (useSubscribeNewBets.addBets afterTime includeRedemptions)
         (batch :: batches) current =
  useSubscribeNewBets.addBets afterTime includeRedemptions
    (List.concat (batch :: batches)) current.
Proof.
  unfold merges. revert batch current.
  induction batches as [|b' bs IH]; intros b c Hag; simpl.
  - now rewrite app_nil_r.
  - simpl in IH. rewrite IH.
    + rewrite !useSubscribeNewBets_addBets_eq, reconcile_back_merge.
      * now rewrite <- app_assoc.
      * intros y x Hy Hx E Hk.
        assert (Hy' : In y (c ++ List.concat (b :: b' :: bs))).
        { simpl. rewrite app_assoc. apply in_or_app. now left. }
        assert (Hx' : In x (c ++ List.concat (b :: b' :: bs))).
        { simpl. apply in_or_app. right. apply in_or_app. now right. }
        destruct (Hag y x Hy' Hx' E) as [Ht Hr].
        unfold useSubscribeNewBets.keep in *. now rewrite Ht, Hr.
    + eapply records_agree_incl; [|exact Hag].
      intros x Hx. simpl. rewrite app_assoc.
      apply in_app_or in Hx. apply in_or_app. destruct Hx as [Hx|Hx]; auto.
      left. rewrite useSubscribeNewBets_addBets_eq in Hx.
      now apply reconcile_incl in Hx.
Qed.

Lemma useSubscribeNewBets_merges_as_one_witness :
  merges (useSubscribeNewBets.addBets 100 false)
         [[bet200; bet50]; [bet150]; [bet200]] [] =
  useSubscribeNewBets.addBets 100 false
    (List.concat [[bet200; bet50]; [bet150]; [bet200]]) [].
Proof.
  apply (useSubscribeNewBets_merges_as_one 100 false
           [bet200; bet50] [[bet150]; [bet200]] []).
  intros y x Hy Hx E. simpl in Hy, Hx.
  repeat (destruct Hy as [<-|Hy]; [|]);
    repeat (destruct Hx as [<-|Hx]; [|]);
    try contradiction; try discriminate E; split; reflexivity.
Defined.

(** ** The polling hook's result *)

Lemma sortByDescending_perm {A : Type} (key : A -> Z) (l : list A) :
  Permutation (Lodash.sortByDescending key l) l.
Proof.
  induction l as [|x l IH]; simpl; auto.
  rewrite insertDescending_perm. auto.
Qed.

(** X10.  Whatever the options, [useRealtimeBetsPolling] returns
    [undefined] while the polling has no rows, and otherwise the converted
    rows, all of them and each as often as it is among the rows, in
    descending order of creation time. *)
Theorem useRealtimeBetsPolling_hook_sorted_rows
  {Row : Type} (created_time : Row -> string) (convertBet : Row -> Bet.t)
  (toISOString : Z -> string) (options : BetFilter.t)
  (polling : useRealtimeBetsPolling.Query ->
             (option (list Row) -> useRealtimeBetsPolling.Query) ->
             option (list Row)) :
  match polling (useRealtimeBetsPolling.allRowsQ options)
                (useRealtimeBetsPolling.newRowsOnlyQ created_time toISOString
                   options) with
  | Some rows =>
    exists bets,
      useRealtimeBetsPolling.hook created_time convertBet toISOString
        options polling = Some bets /\
      descending bets /\
      Permutation bets (map convertBet rows)
  | None =>
    useRealtimeBetsPolling.hook created_time convertBet toISOString
      options polling = None
  end.
Proof.
  unfold useRealtimeBetsPolling.hook, useRealtimeBetsPolling.returned.
  destruct (polling _ _) as [rows|]; auto.
  eexists. split; [reflexivity|]. split.
  - apply sortByDescending_sorted.
  - apply sortByDescending_perm.
Qed.

(** ** The filter of the first fetch and the filter of the merge *)

(** X11.  For an [afterTime] other than 0, [betShouldBeFiltered] with the
    filter [useSubscribeNewBets] fetches with lets a bet through exactly
    when the bet is of the hook's contract (or the contract is the empty
    string) and [addBets] keeps it; with the filter of
    [useSubscribeGlobalBets], exactly when [addBets] keeps it. *)
Theorem getBetsFilter_agrees_with_addBets
  (afterTime : Z) (includeRedemptions : bool) (contractId : string)
  (b : Bet.t) :
  afterTime <> 0 ->
  matches b (Some (useSubscribeNewBets.getBetsFilter afterTime
                     includeRedemptions contractId)) =
  ((contractId =? EmptyString)%string ||
   (Bet.contractId b =? contractId)%string) &&
  useSubscribeNewBets.keep afterTime includeRedemptions b /\
  matches b (Some (useSubscribeGlobalBets.getBetsFilter afterTime
                     includeRedemptions)) =
  useSubscribeGlobalBets.keep afterTime includeRedemptions b.
Proof.
  intros Ha. apply Z.eqb_neq in Ha.
  unfold matches. rewrite !truthy_betShouldBeFiltered.
  unfold useSubscribeGlobalBets.keep. rewrite useSubscribeNewBets_keep_flag.
  unfold Js.not. rewrite truthy_of_bool.
  unfold exclusion_when_truthy, some_exclusion_holds, exclusion_conditions.
  simpl. rewrite Ha. simpl.
  rewrite Z.gtb_ltb, Z.ltb_antisym.
  destruct (Bet.createdTime b <=? afterTime), includeRedemptions,
    (flag (Bet.isRedemption b)), (contractId =? EmptyString)%string,
    (Bet.contractId b =? contractId)%string; split; reflexivity.
Qed.

Lemma getBetsFilter_agrees_with_addBets_witness :
  matches bet160 (Some (useSubscribeNewBets.getBetsFilter 100 false "M1")) =
  ((("M1" =? EmptyString)%string || (Bet.contractId bet160 =? "M1")%string)
   && useSubscribeNewBets.keep 100 false bet160).
Proof.
  apply (getBetsFilter_agrees_with_addBets 100 false "M1" bet160). lia.
Defined.

(** X12.  [useUnfilledBets.addBets] keeps an order exactly when
    [betShouldBeFiltered] with the filter the hook fetches with, for the
    contract of the order, lets it through and its expiration is missing, 0
    or after the time of the merge: the merge adds the expiration to what
    the fetch filters on. *)
Theorem useUnfilledBets_keep_is_filter_and_expiration
  (t : Z) (b : LimitBet) :
  useUnfilledBets.keep t b =
  matches b (Some (useUnfilledBets.getBetsFilter (Bet.contractId b))) &&
  match Bet.expiresAt b with
  | None => true
  | Some e => (e =? 0) || (e >? t)
  end.
Proof.
  rewrite useUnfilledBets_keep_open. unfold open_at_nonzero, matches.
  rewrite truthy_betShouldBeFiltered.
  unfold exclusion_when_truthy, some_exclusion_holds, exclusion_conditions.
  simpl. rewrite String.eqb_refl. simpl.
  rewrite andb_false_r. simpl.
  destruct (flag (Bet.isFilled b)), (flag (Bet.isCancelled b)); reflexivity.
Qed.

(** X13.  Leaving out [contractId], [userId], [afterTime] or [beforeTime]
    never filters a bet that the filter let through. *)
Theorem betShouldBeFiltered_option_only_excludes
  (b : Bet.t) (f : BetFilter.t) :
  matches b (Some f) = true ->
  matches b (Some (BetFilter.with_contractId None f)) = true /\
  matches b (Some (BetFilter.with_userId None f)) = true /\
  matches b (Some (BetFilter.with_afterTime None f)) = true /\
  matches b (Some (BetFilter.with_beforeTime None f)) = true.
Proof.
  unfold matches. rewrite !truthy_betShouldBeFiltered, !negb_true_iff.
  unfold exclusion_when_truthy, some_exclusion_holds, exclusion_conditions.
  destruct f as [c u a e fc fa fr ol o l]. simpl.
  rewrite !orb_false_iff. tauto.
Qed.

Lemma betShouldBeFiltered_option_only_excludes_witness :
  matches bet150 (Some (BetFilter.with_afterTime None scopeM1)) = true.
Proof.
  apply (betShouldBeFiltered_option_only_excludes bet150 scopeM1).
  reflexivity.
Defined.

(** ** Topics and keys *)

Lemma list_ascii_of_string_app (s t : string) :
  list_ascii_of_string (s ++ t) =
  list_ascii_of_string s ++ list_ascii_of_string t.
Proof. induction s as [|a s IH]; simpl; [reflexivity | now rewrite IH]. Qed.

Lemma list_ascii_of_string_inj (s t : string) :
  list_ascii_of_string s = list_ascii_of_string t -> s = t.
Proof.
  intros H. rewrite <- (string_of_list_ascii_of_string s), H.
  apply string_of_list_ascii_of_string.
Qed.

Lemma append_inv_tail (s1 s2 t : string) :
  (s1 ++ t)%string = (s2 ++ t)%string -> s1 = s2.
Proof.
  intros H. apply list_ascii_of_string_inj.
  apply (f_equal list_ascii_of_string) in H.
  rewrite !list_ascii_of_string_app in H. now apply app_inv_tail in H.
Qed.

Lemma append_last_differs (s1 s2 t1 t2 : string) (a1 a2 : Ascii.ascii) :
  a1 <> a2 ->
  (s1 ++ t1 ++ String a1 EmptyString)%string <>
  (s2 ++ t2 ++ String a2 EmptyString)%string.
Proof.
  intros Ha H. apply (f_equal list_ascii_of_string) in H.
  rewrite !list_ascii_of_string_app in H. simpl in H.
  rewrite !app_assoc in H. apply app_inj_tail in H. now destruct H.
Qed.

(** X14.  The topic of [useSubscribeNewBets] and the topic of
    [useUnfilledBets] each determine the contract; no contract's new-bet
    topic is a contract's orders topic, and none of them is the topic of
    [useSubscribeGlobalBets]. *)
Theorem topics_do_not_overlap (c1 c2 : string) :
  (useSubscribeNewBets.topics c1 = useSubscribeNewBets.topics c2 ->
   c1 = c2) /\
  (useUnfilledBets.topics c1 = useUnfilledBets.topics c2 -> c1 = c2) /\
  useSubscribeNewBets.topics c1 <> useUnfilledBets.topics c2 /\
  useSubscribeNewBets.topics c1 <> useSubscribeGlobalBets.topics /\
  useUnfilledBets.topics c1 <> useSubscribeGlobalBets.topics.
Proof.
  unfold useSubscribeNewBets.topics, useUnfilledBets.topics,
    useSubscribeGlobalBets.topics.
  split; [|split; [|split; [|split]]].
  - intros H. injection H as H. now apply append_inv_tail in H.
  - intros H. injection H as H. now apply append_inv_tail in H.
  - intros H. injection H as H. revert H.
    apply (append_last_differs c1 c2 "/new-be" "/order" "t"%char "s"%char).
    discriminate.
  - discriminate.
  - discriminate.
Qed.

(** X15.  The state cell of [useSubscribeNewBets] and the one of
    [useUnfilledBets] each have a key that determines the contract; the key
    of [useSubscribeNewBets] is the key of [useSubscribeGlobalBets] exactly
    for the contract named "global". *)
Theorem keys_of_state_cells (c1 c2 : string) :
  (useSubscribeNewBets.key c1 = useSubscribeNewBets.key c2 -> c1 = c2) /\
  (useUnfilledBets.key c1 = useUnfilledBets.key c2 -> c1 = c2) /\
  (useSubscribeNewBets.key c1 = useSubscribeGlobalBets.key <->
   c1 = "global"%string).
Proof.
  unfold useSubscribeNewBets.key, useUnfilledBets.key,
    useSubscribeGlobalBets.key.
  split; [|split].
  - apply append_inv_tail.
  - intros H. now injection H.
  - split.
    + intros H. now apply (append_inv_tail c1 "global" "-new-bets").
    + intros ->. reflexivity.
Qed.

(** ** User ids and balances of the open orders *)

Lemma baseUniq_complete {A : Type} (f : A -> string) (l : list A) (x : A) :
  In x l -> In (f x) (map f (Lodash.baseUniq f [] l)).
Proof.
  intros Hx.
  destruct (find (fun b => (f b =? f x)%string) (Lodash.baseUniq f [] l))
    as [y|] eqn:E.
  - apply find_some in E. destruct E as [Hy Hid].
    apply String.eqb_eq in Hid. rewrite <- Hid. now apply in_map.
  - rewrite find_baseUniq in E. simpl in E.
    apply find_None_not_In in E. exfalso. apply E. now apply in_map.
Qed.

(** X16.  The user ids [useUnfilledBetsAndBalanceByUserId] polls balances
    for are the users of the open orders, each once; there are none while
    [useUnfilledBets] returns [undefined]. *)
Theorem userIds_are_the_users_once
  (unfilled : option (list LimitBet)) (u : string) :
  NoDup (useUnfilledBetsAndBalanceByUserId.userIds unfilled) /\
  (In u (useUnfilledBetsAndBalanceByUserId.userIds unfilled) <->
   exists b, In b (Js.nullish unfilled []) /\ Bet.userId b = u) /\
  useUnfilledBetsAndBalanceByUserId.userIds None = [].
Proof.
  unfold useUnfilledBetsAndBalanceByUserId.userIds,
    useUnfilledBetsAndBalanceByUserId.unfilledBets, Lodash.uniq.
  split; [|split; [|reflexivity]].
  - rewrite <- (map_id (Lodash.baseUniq _ _ _)). apply baseUniq_NoDup.
  - split.
    + intros H. apply baseUniq_In in H. destruct H as [H _].
      apply in_map_iff in H. destruct H as [b [E Hb]]. eauto.
    + intros [b [Hb <-]].
      rewrite <- (map_id (Lodash.baseUniq _ _ _)).
      apply (baseUniq_complete (fun v : string => v)). now apply in_map.
Qed.

Lemma get_set_property {V : Type} (k k' : string) (v : V) (o : Js.object V) :
  Js.get_property k (Js.set_property k' v o) =
  if (k' =? k)%string then Some v else Js.get_property k o.
Proof.
  unfold Js.get_property. induction o as [|[k0 v0] o IH]; simpl.
  - now destruct (k' =? k)%string.
  - destruct (String.eqb_spec k0 k') as [->|N]; simpl.
    + now destruct (k' =? k)%string.
    + destruct (String.eqb_spec k0 k) as [->|N0]; simpl.
      * destruct (String.eqb_spec k' k); [congruence | reflexivity].
      * apply IH.
Qed.

Lemma get_fold_set_property {V : Type} (k : string)
      (entries : list (string * V)) (o : Js.object V) :
  Js.get_property k
    (fold_left (fun o e => Js.set_property (fst e) (snd e) o) entries o) =
  match find (fun e => (fst e =? k)%string) (rev entries) with
  | Some e => Some (snd e)
  | None => Js.get_property k o
  end.
Proof.
  revert o. induction entries as [|e es IH]; intros o; simpl; auto.
  rewrite IH, find_app, get_set_property. simpl.
  destruct (find _ (rev es)); auto.
  now destruct (fst e =? k)%string.
Qed.

(** X17.  In [balanceByUserId] a user id has the balance of the last entry
    the balance polling holds for it, and no property when the polling
    holds no entry for it or nothing at all. *)
Theorem balanceByUserId_is_last_entry
  {Balance : Type} (unfilled : option (list LimitBet))
  (usePollUserBalances : list string -> option (list (string * Balance)))
  (u : string) :
  Js.get_property u
    (useUnfilledBetsAndBalanceByUserId.balanceByUserId unfilled
       usePollUserBalances) =
  match usePollUserBalances
          (useUnfilledBetsAndBalanceByUserId.userIds unfilled) with
  | Some entries =>
    option_map snd (find (fun e => (fst e =? u)%string) (rev entries))
  | None => None
  end.
Proof.
  unfold useUnfilledBetsAndBalanceByUserId.balanceByUserId,
    useUnfilledBetsAndBalanceByUserId.balances, Js.fromEntries.
  rewrite get_fold_set_property.
  destruct (usePollUserBalances _) as [entries|]; simpl; auto.
  rewrite (map_ext _ (fun e => e)) by (now intros [k v]).
  rewrite map_id. now destruct (find _ (rev entries)).
Qed.

(** ** useRecentBets *)

Lemma StronglySorted_app {A : Type} (R : A -> A -> Prop) (l1 l2 : list A) :
  StronglySorted R l1 -> StronglySorted R l2 ->
  (forall a b, In a l1 -> In b l2 -> R a b) ->
  StronglySorted R (l1 ++ l2).
Proof.
  induction 1 as [|x l1 Hs IH Hall]; intros H2 Hc; simpl; auto.
  constructor.
  - apply IH; auto. intros a b Ha Hb. apply Hc; simpl; auto.
  - apply Forall_app. split; auto.
    apply Forall_forall. intros b Hb. apply Hc; simpl; auto.
Qed.

(** X18.  [useRecentBets] asks for the bets in descending order; when the
    fetch resolves with bets in descending order of creation time, the
    state is set to the same bets in ascending order. *)
Theorem useRecentBets_fetched_ascending
  (contractId : string) (limit : Z) (bets : list Bet.t) :
  descending bets ->
  BetFilter.order (useRecentBets.getBetsFilter contractId limit)
  = Some desc /\
  exists l, useRecentBets.fetched bets = Some l /\
            ascending l /\ Permutation l bets.
Proof.
  intros Hd. split; [reflexivity|].
  exists (rev bets). split; [reflexivity|].
  split; [|symmetry; apply Permutation_rev].
  unfold ascending. induction Hd as [|x l Hs IH Hall]; simpl.
  - constructor.
  - apply StronglySorted_app; auto.
    + repeat constructor.
    + intros a b Ha [<-|[]]. apply in_rev in Ha.
      rewrite Forall_forall in Hall. specialize (Hall a Ha).
      unfold ge_created in Hall. unfold le_created, le_by. lia.
Qed.

Lemma useRecentBets_fetched_ascending_witness :
  exists l, useRecentBets.fetched [bet200; bet160; bet150] = Some l /\
            ascending l /\ Permutation l [bet200; bet160; bet150].
Proof.
  apply (useRecentBets_fetched_ascending "M1" 3 [bet200; bet160; bet150]).
  unfold descending, ge_created. repeat constructor; simpl; lia.
Defined.

(** ** The lower bound of the delta query *)

(** X19.  Once a row is known, the lower bound of the delta query does not
    go down when further rows become known: the bound for a non-empty list
    of known rows is at most the bound for these rows and any further ones.
    (While no row is known the bound is the text of [afterTime], which the
    creation time of a first row need not exceed as a string.) *)
Theorem newRowsOnlyQ_bound_advances
  {Row : Type} (created_time : Row -> string) (toISOString : Z -> string)
  (options : BetFilter.t) (r : Row) (rows more : list Row) :
  exists b1 b2,
    useRealtimeBetsPolling.gt_created_time
      (useRealtimeBetsPolling.newRowsOnlyQ created_time toISOString options
         (Some (r :: rows))) = Some b1 /\
    useRealtimeBetsPolling.gt_created_time
      (useRealtimeBetsPolling.newRowsOnlyQ created_time toISOString options
         (Some ((r :: rows) ++ more))) = Some b2 /\
    str_le b1 b2.
Proof.
  destruct (maxBy_max created_time r rows) as [m1 [E1 [Hin1 _]]].
  destruct (maxBy_max created_time r (rows ++ more)) as [m2 [E2 [_ Hall]]].
  exists (created_time m1), (created_time m2).
  unfold useRealtimeBetsPolling.newRowsOnlyQ.
  rewrite E1. simpl app. rewrite E2. simpl.
  split; [reflexivity|]. split; [reflexivity|].
  rewrite Forall_forall in Hall. apply Hall.
  change (r :: rows ++ more) with ((r :: rows) ++ more).
  apply in_or_app. now left.
Qed.
